(** * select_audio_output: device-name resolution and volume/mute control

    A shallow embedding of [select_audio_output.py] and of the parts of the
    Python standard library it calls ([str] methods, [difflib], [heapq]),
    followed by the properties of the resolver ([find_closest_device]),
    of the volume/mute controller ([get_volume], [set_volume],
    [adjust_volume], [toggle_mute]), of the two listings ([list_devices],
    [get_current_device]), of [switch_device] and of the entry points
    ([interactive_mode], [main]).

    Modelling conventions.
    - A Python [str] is a Rocq [string]; the model is exact for ASCII text
      (case mapping, white space and line boundaries are the ASCII ones,
      every other character is caseless and is neither blank nor a line
      break).
    - A Python float that [difflib] computes as [2.0 * m / t] is the exact
      rational [2 * m / t]; the comparisons the program makes on such
      floats agree with the rational ones for every pair of strings
      shorter than [2^25] characters.
    - External processes ([osascript], [SwitchAudioSource]) are an oracle
      [subprocess_run] over an arbitrary backend state; every call is
      recorded in a log.  Exceptions are explicit results.
    - The user at the menu of [questionary] is a pair of answers,
      [ask_select] and [ask_text]; [main] starts from the namespace that
      [argparse] returns.
    - Text printed on the console is not part of the model. *)

From Stdlib Require Import ZArith QArith Ascii String List Lia Bool.
From Stdlib Require Import DecimalString.
From stdpp Require Import gmap gmultiset list strings.

Local Open Scope string_scope.
Local Open Scope nat_scope.
Local Open Scope list_scope.

(** ** Python built-ins *)

Module Py.

(** [c.lower()] on one character: ['A'..'Z'] move to ['a'..'z']. *)
Definition lower_char (c : ascii) : ascii :=
  let n := nat_of_ascii c in
  if (65 <=? n) && (n <=? 90) then ascii_of_nat (n + 32) else c.

(** [s.lower()] *)
Fixpoint lower (s : string) : string :=
  match s with
  | EmptyString => EmptyString
  | String c s' => String (lower_char c) (lower s')
  end.

(** [needle in hay] on strings: substring containment. *)
Fixpoint contains (hay needle : string) : bool :=
  String.prefix needle hay ||
  match hay with
  | EmptyString => false
  | String _ hay' => contains hay' needle
  end.

(** [c.isspace()]: tab, line feed, vertical tab, form feed, carriage
    return, the four separators 0x1c..0x1f and the space. *)
Definition isspace (c : ascii) : bool :=
  let n := nat_of_ascii c in
  ((9 <=? n) && (n <=? 13)) || ((28 <=? n) && (n <=? 32)).

Fixpoint lstrip (s : string) : string :=
  match s with
  | String c s' => if isspace c then lstrip s' else s
  | EmptyString => EmptyString
  end.

Fixpoint rstrip (s : string) : string :=
  match s with
  | EmptyString => EmptyString
  | String c s' =>
      match rstrip s' with
      | EmptyString => if isspace c then EmptyString else String c EmptyString
      | r => String c r
      end
  end.

(** [s.strip()] *)
Definition strip (s : string) : string := rstrip (lstrip s).

(** Line boundaries of [str.splitlines]: LF, VT, FF, CR, FS, GS, RS
    (and CR LF as one boundary). *)
Definition islinebreak (c : ascii) : bool :=
  let n := nat_of_ascii c in
  ((10 <=? n) && (n <=? 13)) || ((28 <=? n) && (n <=? 30)).

(** [s.splitlines()], with the line being read in [cur] (reversed). *)
Fixpoint splitlines_from (cur : list ascii) (s : string) : list string :=
  match s with
  | EmptyString =>
      match cur with
      | [] => []
      | _ => [string_of_list_ascii (rev cur)]
      end
  | String c s' =>
      if islinebreak c then
        string_of_list_ascii (rev cur) ::
        match s' with
        | String c' s'' =>
            if (nat_of_ascii c =? 13) && (nat_of_ascii c' =? 10)
            then splitlines_from [] s''
            else splitlines_from [] s'
        | EmptyString => []
        end
      else splitlines_from (c :: cur) s'
  end.

Definition splitlines (s : string) : list string := splitlines_from [] s.

Definition digit_of (c : ascii) : option Z :=
  let n := nat_of_ascii c in
  if (48 <=? n) && (n <=? 57) then Some (Z.of_nat (n - 48)) else None.

(** Decimal digits with single underscores between them;
    [after_digit] tells whether the previous character was a digit. *)
Fixpoint digits (acc : Z) (after_digit : bool) (s : string) : option Z :=
  match s with
  | EmptyString => if after_digit then Some acc else None
  | String c s' =>
      match digit_of c with
      | Some d => digits (10 * acc + d) true s'
      | None =>
          if (nat_of_ascii c =? 95) && after_digit
          then digits acc false s'
          else None
      end
  end.

(** [int(s)]: [None] stands for [ValueError]. *)
Definition int (s : string) : option Z :=
  match strip s with
  | String c r =>
      if nat_of_ascii c =? 43 then digits 0 false r
      else if nat_of_ascii c =? 45 then Z.opp <$> digits 0 false r
      else digits 0 false (String c r)
  | EmptyString => None
  end.

(** [min(iterable, key=key)]: the first element whose key is least;
    [None] stands for the [ValueError] on an empty iterable. *)
Definition min_by {A : Type} (key : A -> nat) (l : list A) : option A :=
  match l with
  | [] => None
  | x :: l' =>
      Some (foldl (fun best y => if key y <? key best then y else best) x l')
  end.

(** Truth value of a string: [if s:] *)
Definition truthy (s : string) : bool :=
  match s with
  | EmptyString => false
  | String _ _ => true
  end.

(** [s.replace(old, "")] for a non-empty [old], left to right; [skip]
    counts the characters of the occurrence being dropped. *)
Fixpoint remove_from (old : string) (skip : nat) (s : string) : string :=
  match s with
  | EmptyString => EmptyString
  | String c s' =>
      match skip with
      | S skip' => remove_from old skip' s'
      | O =>
          if String.prefix old s
          then remove_from old (String.length old - 1) s'
          else String c (remove_from old 0 s')
      end
  end.

Definition remove (old s : string) : string := remove_from old 0 s.

End Py.

(** ** [difflib]: [SequenceMatcher] and [get_close_matches] *)

Module Difflib.

(** [Match = namedtuple('Match', 'a b size')] *)
Record Match : Type := mkMatch { m_a : nat; m_b : nat; size : nat }.

(** [_calculate_ratio(matches, length)] *)
Definition calculate_ratio (matches length : nat) : Q :=
  match length with
  | O => 1%Q
  | S _ => Qmake (2 * Z.of_nat matches) (Pos.of_nat length)
  end.

Section SequenceMatcher.
Context {A : Type} `{Countable A}.
Implicit Types a b : list A.

(** The first loop of [__chain_b]:
    [for i, elt in enumerate(b): b2j.setdefault(elt, []).append(i)]. *)
Fixpoint chain_from (i : nat) b (b2j : gmap A (list nat))
    : gmap A (list nat) :=
  match b with
  | [] => b2j
  | elt :: b' =>
      chain_from (S i) b' (<[elt := default [] (b2j !! elt) ++ [i]]> b2j)
  end.

(** [__chain_b] with [isjunk = None] and [autojunk = True]: no junk,
    and the popular elements of a [b] of 200 elements or more are
    purged from [b2j]. *)
Definition chain_b b : gmap A (list nat) :=
  let b2j := chain_from 0 b ∅ in
  let n := length b in
  if 200 <=? n then
    let ntest := n / 100 + 1 in
    omap (fun idxs => if ntest <? length idxs then None else Some idxs) b2j
  else b2j.

(** [j2len.get(j-1, 0)]: no key is negative. *)
Definition j2len_get_pred (j2len : gmap nat nat) (j : nat) : nat :=
  match j with
  | O => 0
  | S j' => default 0 (j2len !! j')
  end.

(** The inner loop of [find_longest_match] over [b2j.get(a[i], nothing)]:
    [continue] below [blo], [break] from [bhi] on. *)
Fixpoint scan_row (j2len : gmap nat nat) (i blo bhi : nat) (js : list nat)
    (newj2len : gmap nat nat) (best : Match) : gmap nat nat * Match :=
  match js with
  | [] => (newj2len, best)
  | j :: js' =>
      if j <? blo then scan_row j2len i blo bhi js' newj2len best
      else if bhi <=? j then (newj2len, best)
      else
        let k := j2len_get_pred j2len j + 1 in
        scan_row j2len i blo bhi js' (<[j := k]> newj2len)
          (if size best <? k then mkMatch (i + 1 - k) (j + 1 - k) k
           else best)
  end.

(** The outer loop [for i in range(alo, ahi)]; [a[i]] is always in
    range there. *)
Fixpoint scan_rows a (b2j : gmap A (list nat)) (blo bhi : nat)
    (rows : list nat) (j2len : gmap nat nat) (best : Match) : Match :=
  match rows with
  | [] => best
  | i :: rows' =>
      let js := match a !! i with
                | Some x => default [] (b2j !! x)
                | None => []
                end in
      let '(newj2len, best') := scan_row j2len i blo bhi js ∅ best in
      scan_rows a b2j blo bhi rows' newj2len best'
  end.

Definition same_at a b (i j : nat) : bool :=
  match a !! i, b !! j with
  | Some x, Some y => bool_decide (x = y)
  | _, _ => false
  end.

(** [while besti > alo and bestj > blo and a[besti-1] == b[bestj-1]]
    (no element is junk, so [not isbjunk(...)] holds). *)
Fixpoint extend_left a b (alo blo : nat) (besti bestj bestsize : nat)
    : Match :=
  match besti, bestj with
  | S i', S j' =>
      if (alo <? besti) && (blo <? bestj) && same_at a b i' j'
      then extend_left a b alo blo i' j' (bestsize + 1)
      else mkMatch besti bestj bestsize
  | _, _ => mkMatch besti bestj bestsize
  end.

(** [while besti+bestsize < ahi and bestj+bestsize < bhi and
    a[besti+bestsize] == b[bestj+bestsize]]; the loop runs at most
    [ahi - (besti+bestsize)] times, which is [steps]. *)
Fixpoint extend_right a b (ahi bhi : nat) (besti bestj bestsize : nat)
    (steps : nat) : Match :=
  match steps with
  | O => mkMatch besti bestj bestsize
  | S steps' =>
      if (besti + bestsize <? ahi) && (bestj + bestsize <? bhi)
         && same_at a b (besti + bestsize) (bestj + bestsize)
      then extend_right a b ahi bhi besti bestj (bestsize + 1) steps'
      else mkMatch besti bestj bestsize
  end.

(** [find_longest_match(alo, ahi, blo, bhi)].  The two closing loops
    of the source extend over junk only and never run here. *)
Definition find_longest_match a b (b2j : gmap A (list nat))
    (alo ahi blo bhi : nat) : Match :=
  let best := scan_rows a b2j blo bhi (seq alo (ahi - alo)) ∅
                (mkMatch alo blo 0) in
  let best := extend_left a b alo blo (m_a best) (m_b best) (size best) in
  extend_right a b ahi bhi (m_a best) (m_b best) (size best)
    (ahi - (m_a best + size best)).

(** The [while queue:] loop of [get_matching_blocks].  The head of
    [queue] is the last element of the Python list ([queue.pop()]);
    [None] when [fuel] runs out. *)
Fixpoint blocks_loop (fuel : nat) a b (b2j : gmap A (list nat))
    (queue : list (nat * nat * nat * nat)) (matching_blocks : list Match)
    {struct fuel} : option (list Match) :=
  match queue with
  | [] => Some matching_blocks
  | (alo, ahi, blo, bhi) :: queue =>
      match fuel with
      | O => None
      | S fuel =>
          let x := find_longest_match a b b2j alo ahi blo bhi in
          let '(i, j, k) := (m_a x, m_b x, size x) in
          if k =? 0 then blocks_loop fuel a b b2j queue matching_blocks
          else
            let queue :=
              if (alo <? i) && (blo <? j)
              then (alo, i, blo, j) :: queue else queue in
            let queue :=
              if (i + k <? ahi) && (j + k <? bhi)
              then (i + k, ahi, j + k, bhi) :: queue else queue in
            blocks_loop fuel a b b2j queue (matching_blocks ++ [x])
      end
  end.

(** Tuple order on blocks, for [matching_blocks.sort()]. *)
Definition match_leb (x y : Match) : bool :=
  (m_a x <? m_a y) ||
  ((m_a x =? m_a y) &&
   ((m_b x <? m_b y) || ((m_b x =? m_b y) && (size x <=? size y)))).

Fixpoint insert_block (x : Match) (l : list Match) : list Match :=
  match l with
  | [] => [x]
  | y :: l' => if match_leb x y then x :: l else y :: insert_block x l'
  end.

Definition sort_blocks (l : list Match) : list Match :=
  foldr insert_block [] l.

(** The loop collapsing adjacent blocks; [(i1, j1, k1)] is the block
    being grown. *)
Fixpoint collapse (i1 j1 k1 : nat) (blocks non_adjacent : list Match)
    : list Match :=
  match blocks with
  | [] => if k1 =? 0 then non_adjacent
          else non_adjacent ++ [mkMatch i1 j1 k1]
  | x :: blocks' =>
      if (i1 + k1 =? m_a x) && (j1 + k1 =? m_b x)
      then collapse i1 j1 (k1 + size x) blocks' non_adjacent
      else collapse (m_a x) (m_b x) (size x) blocks'
             (if k1 =? 0 then non_adjacent
              else non_adjacent ++ [mkMatch i1 j1 k1])
  end.

(** [get_matching_blocks()], given enough fuel for the loop. *)
Definition get_matching_blocks_fuel (fuel : nat) a b
    : option (list Match) :=
  let la := length a in
  let lb := length b in
  blocks ← blocks_loop fuel a b (chain_b b) [(0, la, 0, lb)] [];
  Some (collapse 0 0 0 (sort_blocks blocks) [] ++ [mkMatch la lb 0]).

(** [get_matching_blocks()]: the loop pops at most [2 * len(a) + 1]
    regions (see [get_matching_blocks_returns]). *)
Definition get_matching_blocks a b : list Match :=
  default [] (get_matching_blocks_fuel (2 * length a + 1) a b).

(** [sum(triple[-1] for triple in self.get_matching_blocks())] *)
Definition matches a b : nat :=
  foldr (fun triple acc => size triple + acc) 0 (get_matching_blocks a b).

(** [ratio()] *)
Definition ratio a b : Q :=
  calculate_ratio (matches a b) (length a + length b).

(** [fullbcount]: how often each element occurs in [b]. *)
Definition fullbcount b : gmap A Z :=
  foldl (fun m elt => <[elt := (default 0 (m !! elt) + 1)%Z]> m) ∅ b.

(** The loop of [quick_ratio] over [a]; [avail] may go below zero. *)
Fixpoint quick_loop (full : gmap A Z) a (avail : gmap A Z)
    (matches : nat) : nat :=
  match a with
  | [] => matches
  | elt :: a' =>
      let numb := match avail !! elt with
                  | Some n => n
                  | None => default 0%Z (full !! elt)
                  end in
      quick_loop full a' (<[elt := (numb - 1)%Z]> avail)
        (if (0 <? numb)%Z then matches + 1 else matches)
  end.

Definition quick_matches a b : nat := quick_loop (fullbcount b) a ∅ 0.

(** [quick_ratio()] *)
Definition quick_ratio a b : Q :=
  calculate_ratio (quick_matches a b) (length a + length b).

(** [real_quick_ratio()] *)
Definition real_quick_ratio a b : Q :=
  let la := length a in
  let lb := length b in
  calculate_ratio (Nat.min la lb) (la + lb).

End SequenceMatcher.

(** Python's order on [(score, x)] tuples: the score first, then the
    string, character by character. *)
Definition scored_ltb (p q : Q * string) : bool :=
  match (p.1 ?= q.1)%Q with
  | Lt => true
  | Gt => false
  | Eq => match String.compare p.2 q.2 with Lt => true | _ => false end
  end.

(** [sorted(iterable, reverse=True)], stable. *)
Fixpoint insert_desc (x : Q * string) (l : list (Q * string))
    : list (Q * string) :=
  match l with
  | [] => [x]
  | y :: l' => if scored_ltb y x then x :: l else y :: insert_desc x l'
  end.

Definition sorted_desc (l : list (Q * string)) : list (Q * string) :=
  foldr insert_desc [] l.

(** [heapq.nlargest(n, iterable)], which is
    [sorted(iterable, reverse=True)[:n]]. *)
Definition nlargest (n : nat) (l : list (Q * string)) : list (Q * string) :=
  take n (sorted_desc l).

(** The body of the [for x in possibilities] loop. *)
Definition scored (word : string) (cutoff : Q) (x : string)
    : option (Q * string) :=
  let a := list_ascii_of_string x in
  let b := list_ascii_of_string word in
  if Qle_bool cutoff (real_quick_ratio a b) &&
     Qle_bool cutoff (quick_ratio a b) &&
     Qle_bool cutoff (ratio a b)
  then Some (ratio a b, x) else None.

(** [get_close_matches(word, possibilities, n, cutoff)] for [n > 0] and
    [0 <= cutoff <= 1]. *)
Definition get_close_matches (word : string) (possibilities : list string)
    (n : nat) (cutoff : Q) : list string :=
  let result := omap (scored word cutoff) possibilities in
  snd <$> nlargest n result.

End Difflib.

(** ** The resolver *)

(** [find_closest_device(name, devices)]; [None] is Python's [None]. *)
Definition find_closest_device (name : string) (devices : list string)
    : option string :=
  match devices with
  | [] => None
  | _ :: _ =>
      (* Strategy 1: case-insensitive exact match *)
      let name_lower := Py.lower name in
      match List.find (fun device => String.eqb (Py.lower device) name_lower)
                      devices with
      | Some device => Some device
      | None =>
          (* Strategy 2: substring matching *)
          let matching_devices :=
            List.filter (fun device => Py.contains (Py.lower device) name_lower)
                        devices in
          if length matching_devices =? 1 then matching_devices !! 0
          else if 1 <? length matching_devices
          then Py.min_by String.length matching_devices
          else
            (* Strategy 3: fuzzy matching *)
            let matches := Difflib.get_close_matches name devices 3 (3 # 10) in
            matches !! 0
      end
  end.

(** ** External processes and exceptions *)

(** The AppleScript texts handed to [osascript -e]. *)
Inductive applescript : Type :=
  | OutputVolume            (* output volume of (get volume settings) *)
  | OutputVolumeSE          (* tell application "System Events" to get
                               output volume of (get volume settings) *)
  | SetOutputVolume (level : Z)    (* set volume output volume {level} *)
  | SetOutputVolumeSE (level : Z)  (* tell application "System Events" to
                                      set volume output volume {level} *)
  | SetVolume (level : Z)          (* set volume {level/10} *)
  | OutputMuted             (* output muted of (get volume settings) *)
  | OutputMutedSE           (* tell application "System Events" to get
                               output muted of (get volume settings) *)
  | SetOutputMuted (state : bool)    (* set volume output muted {state} *)
  | SetOutputMutedSE (state : bool). (* tell application "System Events" to
                                        set volume output muted {state} *)

(** The argument vectors passed to [subprocess.run]. *)
Inductive argv : Type :=
  | Osascript (script : applescript)   (* osascript -e script *)
  | ListOutputs                        (* SwitchAudioSource -t output -a *)
  | CurrentOutput                      (* SwitchAudioSource -c -t output *)
  | SelectOutput (name : string).      (* SwitchAudioSource -t output -s name *)

(** The exceptions of the program, all subclasses of [Exception]:
    [OtherError] is any other one that [subprocess.run] may raise. *)
Inductive exn : Type :=
  | CalledProcessError (stderr : string)
  | FileNotFoundError
  | ValueError
  | OtherError.

(** What [subprocess.run(..., check=True, text=True)] does. *)
Inductive completed : Type :=
  | Completed (stdout : string)
  | Failed (e : exn).

(** How a call ends: a value, an exception, or [sys.exit(code)]. *)
Inductive result (A : Type) : Type :=
  | Return (x : A)
  | Raise (e : exn)
  | Exit (code : Z).
Arguments Return {A} x.
Arguments Raise {A} e.
Arguments Exit {A} code.

(** The namespace that [argparse] returns to [main]. *)
Record Args : Type := mkArgs {
  arg_interactive : bool;        (* -i, --interactive *)
  arg_current : bool;            (* -c, --current *)
  arg_toggle_mute : bool;        (* -m, --toggle-mute *)
  arg_get_volume : bool;         (* -g, --get-volume *)
  arg_volume : option Z;         (* -v, --volume LEVEL *)
  arg_volume_up : option Z;      (* -u, --volume-up AMOUNT *)
  arg_volume_down : option Z;    (* -d, --volume-down AMOUNT *)
  arg_device : option string     (* device *)
}.

Section Program.
(** The machine the program runs on: some state [W] and the effect of
    running a command on it. *)
Context {W : Type} (subprocess_run : argv -> W -> completed * W).

(** The state threaded through the program: the machine and the log of
    the commands run so far. *)
Definition M (A : Type) : Type := W * list argv -> result A * (W * list argv).

Definition ret {A} (x : A) : M A := fun s => (Return x, s).
Definition raise {A} (e : exn) : M A := fun s => (Raise e, s).
Definition sys_exit {A} (code : Z) : M A := fun s => (Exit code, s).

Definition bind {A B} (m : M A) (k : A -> M B) : M B :=
  fun s =>
    match m s with
    | (Return x, s') => k x s'
    | (Raise e, s') => (Raise e, s')
    | (Exit c, s') => (Exit c, s')
    end.

(** [try: m except ...: handler]; [handler e = None] when no clause
    matches [e].  [sys.exit] is not an [Exception] and passes through. *)
Definition try_except {A} (m : M A) (handler : exn -> option (M A)) : M A :=
  fun s =>
    match m s with
    | (Raise e, s') =>
        match handler e with
        | Some h => h s'
        | None => (Raise e, s')
        end
    | r => r
    end.

Notation "x <- m ;; k" := (bind m (fun x => k))
  (at level 100, m at next level, right associativity).

(** [subprocess.run(cmd, check=True, ...).stdout] *)
Definition run (cmd : argv) : M string :=
  fun '(w, log) =>
    match subprocess_run cmd w with
    | (Completed stdout, w') => (Return stdout, (w', log ++ [cmd]))
    | (Failed e, w') => (Raise e, (w', log ++ [cmd]))
    end.

(** [list_devices()] *)
Definition list_devices : M (list string) :=
  stdout <- try_except (run ListOutputs)
              (fun e => match e with
                        | FileNotFoundError => Some (sys_exit 1)
                        | CalledProcessError _ => Some (sys_exit 1)
                        | _ => None
                        end) ;;
  ret (List.filter Py.truthy (Py.strip <$> Py.splitlines stdout)).

(** One round of the loop of [get_volume]: [Some v] is [return v],
    [None] goes on with the next command ([continue] or the end of the
    body). *)
Definition get_volume_try (cmd : applescript) : M (option Z) :=
  try_except
    (stdout <- run (Osascript cmd) ;;
     let output := Py.strip stdout in
     if Py.truthy output && negb (String.eqb output "missing value")
     then match Py.int output with
          | Some v => ret (Some v)
          | None => raise ValueError
          end
     else ret None)
    (fun e => match e with
              | CalledProcessError _ | ValueError => Some (ret None)
              | _ => None
              end).

Fixpoint get_volume_loop (commands : list applescript) : M (option Z) :=
  match commands with
  | [] => ret None
  | cmd :: commands' =>
      r <- get_volume_try cmd ;;
      match r with
      | Some v => ret (Some v)
      | None => get_volume_loop commands'
      end
  end.

(** [get_volume()] *)
Definition get_volume : M (option Z) :=
  try_except
    (get_volume_loop [OutputVolume; OutputVolumeSE; OutputVolume])
    (fun _ => Some (ret None)).

(** One round of the loop of [set_volume]: [true] is [return True]. *)
Definition set_volume_try (cmd : applescript) : M bool :=
  try_except
    (_ <- run (Osascript cmd) ;; ret true)
    (fun e => match e with
              | CalledProcessError _ => Some (ret false)
              | _ => None
              end).

Fixpoint set_volume_loop (commands : list applescript) : M bool :=
  match commands with
  | [] => ret false
  | cmd :: commands' =>
      done <- set_volume_try cmd ;;
      if done then ret true else set_volume_loop commands'
  end.

(** [set_volume(level)] *)
Definition set_volume (level : Z) : M bool :=
  let level := Z.max 0 (Z.min 100 level) in
  try_except
    (set_volume_loop
       [SetOutputVolume level; SetOutputVolumeSE level; SetVolume level])
    (fun _ => Some (ret false)).

(** [adjust_volume(delta)] *)
Definition adjust_volume (delta : Z) : M bool :=
  current_volume <- get_volume ;;
  match current_volume with
  | None => ret false
  | Some current_volume =>
      let new_volume := Z.max 0 (Z.min 100 (current_volume + delta)) in
      set_volume new_volume
  end.

(** One round of the first loop of [toggle_mute]: [Some m] is
    [is_muted = m; break]. *)
Definition check_mute_try (cmd : applescript) : M (option bool) :=
  try_except
    (stdout <- run (Osascript cmd) ;;
     let output := Py.strip stdout in
     if Py.truthy output && negb (String.eqb output "missing value")
     then ret (Some (String.eqb output "true"))
     else ret None)
    (fun e => match e with
              | CalledProcessError _ => Some (ret None)
              | _ => None
              end).

Fixpoint check_mute_loop (commands : list applescript) : M (option bool) :=
  match commands with
  | [] => ret None
  | cmd :: commands' =>
      r <- check_mute_try cmd ;;
      match r with
      | Some is_muted => ret (Some is_muted)
      | None => check_mute_loop commands'
      end
  end.

(** One round of the second loop of [toggle_mute]: [true] is
    [return not is_muted]. *)
Definition set_mute_try (cmd : applescript) : M bool :=
  try_except
    (_ <- run (Osascript cmd) ;; ret true)
    (fun e => match e with
              | CalledProcessError _ => Some (ret false)
              | _ => None
              end).

Fixpoint set_mute_loop (is_muted : bool) (commands : list applescript)
    : M (option bool) :=
  match commands with
  | [] => ret None
  | cmd :: commands' =>
      done <- set_mute_try cmd ;;
      if done then ret (Some (negb is_muted))
      else set_mute_loop is_muted commands'
  end.

(** [toggle_mute()] *)
Definition toggle_mute : M (option bool) :=
  try_except
    (is_muted <- check_mute_loop [OutputMuted; OutputMutedSE] ;;
     match is_muted with
     | None => ret None
     | Some is_muted =>
         let state := if is_muted then false else true in
         set_mute_loop is_muted [SetOutputMuted state; SetOutputMutedSE state]
     end)
    (fun _ => Some (ret None)).

(** The [try: subprocess.run([..., '-s', name]) ... except
    CalledProcessError: sys.exit(1)] of [switch_device]. *)
Definition select_or_exit (name : string) : M unit :=
  try_except
    (_ <- run (SelectOutput name) ;; ret tt)
    (fun e => match e with
              | CalledProcessError _ => Some (sys_exit 1)
              | _ => None
              end).

(** [switch_device(name)] *)
Definition switch_device (name : string) : M unit :=
  devices <- list_devices ;;
  if bool_decide (name ∈ devices) then select_or_exit name
  else
    let closest_match := find_closest_device name devices in
    match closest_match with
    | Some closest => if Py.truthy closest then select_or_exit closest
                      else sys_exit 1
    | None => sys_exit 1
    end.

(** [get_current_device()] *)
Definition get_current_device : M (option string) :=
  try_except
    (stdout <- run CurrentOutput ;; ret (Some (Py.strip stdout)))
    (fun e => match e with
              | CalledProcessError _ => Some (ret None)
              | _ => None
              end).

Section User.
(** The user at the terminal: the answer of [questionary.select] to a
    list of choices and the validated answer of [questionary.text];
    [None] is an abort. *)
Variable ask_select : list string -> option string.
Variable ask_text : option string.

(** The entry of a device in the menu. *)
Definition menu_entry (current_device : option string) (device : string)
    : string :=
  if bool_decide (Some device = current_device)
  then (device ++ " (active)")%string else device.

(** [interactive_mode()] *)
Definition interactive_mode : M unit :=
  devices <- list_devices ;;
  match devices with
  | [] => sys_exit 1
  | _ :: _ =>
      current_device <- get_current_device ;;
      let choices := menu_entry current_device <$> devices in
      test_mute <- try_except
                     (stdout <- run (Osascript OutputMuted) ;;
                      ret (Some (Py.strip stdout)))
                     (fun _ => Some (ret None)) ;;
      let choices :=
        match test_mute with
        | Some output =>
            if negb (String.eqb output "missing value")
            then choices ++ ["-- Toggle mute --"] else choices
        | None => choices
        end in
      test_volume <- get_volume ;;
      let choices :=
        match test_volume with
        | Some _ =>
            choices ++ ["-- Show volume --"; "-- Increase volume (+10%) --";
                        "-- Decrease volume (-10%) --"; "-- Adjust volume... --"]
        | None => choices
        end in
      match ask_select choices with
      | None => sys_exit 1
      | Some choice =>
          if String.eqb choice "-- Toggle mute --"
          then (_ <- toggle_mute ;; ret tt)
          else if String.eqb choice "-- Show volume --"
          then (_ <- get_volume ;; ret tt)
          else if String.eqb choice "-- Increase volume (+10%) --"
          then (_ <- adjust_volume 10 ;; ret tt)
          else if String.eqb choice "-- Decrease volume (-10%) --"
          then (_ <- adjust_volume (-10) ;; ret tt)
          else if String.eqb choice "-- Adjust volume... --"
          then
            match ask_text with
            | None => ret tt
            | Some volume_input =>
                match Py.int volume_input with
                | Some level => (_ <- set_volume level ;; ret tt)
                | None => raise ValueError
                end
            end
          else
            let choice :=
              if Py.contains choice " (active)"
              then Py.remove " (active)" choice else choice in
            switch_device choice
      end
  end.

(** [main()], from the parsed arguments on.  Reaching the end of [main]
    is [Return tt]. *)
Definition main (args : Args) : M unit :=
  if arg_get_volume args then (_ <- get_volume ;; sys_exit 0)
  else
    match arg_volume args with
    | Some level =>
        success <- set_volume level ;;
        if success then sys_exit 0 else sys_exit 1
    | None =>
        match arg_volume_up args with
        | Some amount =>
            success <- adjust_volume amount ;;
            if success then sys_exit 0 else sys_exit 1
        | None =>
            match arg_volume_down args with
            | Some amount =>
                success <- adjust_volume (- amount) ;;
                if success then sys_exit 0 else sys_exit 1
            | None =>
                if arg_toggle_mute args then
                  result <- toggle_mute ;;
                  match result with
                  | None => sys_exit 1
                  | Some _ => sys_exit 0
                  end
                else if arg_current args then
                  current <- get_current_device ;;
                  match current with
                  | Some name => if Py.truthy name then sys_exit 0
                                 else sys_exit 1
                  | None => sys_exit 1
                  end
                else if arg_interactive args then
                  (_ <- interactive_mode ;; sys_exit 0)
                else
                  match arg_device args with
                  | None =>
                      current <- get_current_device ;;
                      _ <- list_devices ;;
                      sys_exit 0
                  | Some device => switch_device device
                  end
            end
        end
    end.

End User.

End Program.

(** ** A reference backend *)

Module Stub.

(** Modelled from the spec: the Audio Backend of section 6, the external
    collaborator behind [subprocess.run].  It keeps the device list, the
    active device, the output volume and the mute flag; [granted] tells
    which AppleScript dialects this machine accepts, and the dialects of
    one operation are semantically identical (section 4.2). *)
Record Backend : Type := mkBackend {
  devices : list string;
  active : option string;
  volume : Z;
  muted : bool;
  granted : applescript -> bool
}.

Definition newline : string := String (ascii_of_nat 10) EmptyString.

Definition show_Z (z : Z) : string := NilEmpty.string_of_int (Z.to_int z).

Definition show_bool (b : bool) : string := if b then "true" else "false".

Definition with_volume (b : Backend) (level : Z) : Backend :=
  mkBackend (devices b) (active b) level (muted b) (granted b).

Definition with_muted (b : Backend) (state : bool) : Backend :=
  mkBackend (devices b) (active b) (volume b) state (granted b).

Definition with_active (b : Backend) (name : string) : Backend :=
  mkBackend (devices b) (Some name) (volume b) (muted b) (granted b).

(** Modelled from the spec: what the backend of section 6 does with an
    AppleScript it accepts ([getVolume], [setVolume], [getMute],
    [setMute]). *)
Definition osascript (script : applescript) (b : Backend)
    : completed * Backend :=
  match script with
  | OutputVolume | OutputVolumeSE =>
      (Completed (show_Z (volume b) ++ newline)%string, b)
  | SetOutputVolume level | SetOutputVolumeSE level | SetVolume level =>
      (Completed "", with_volume b level)
  | OutputMuted | OutputMutedSE =>
      (Completed (show_bool (muted b) ++ newline)%string, b)
  | SetOutputMuted state | SetOutputMutedSE state =>
      (Completed "", with_muted b state)
  end.

(** Modelled from the spec: the backend of section 6 as a machine for
    [subprocess.run]; a script that is not granted fails, as does the
    selection of a device that is not listed. *)
Definition subprocess_run (cmd : argv) (b : Backend) : completed * Backend :=
  match cmd with
  | Osascript script =>
      if granted b script then osascript script b
      else (Failed (CalledProcessError "execution error"), b)
  | ListOutputs =>
      (Completed
         (String.concat "" ((fun d => d ++ newline)%string <$> devices b)),
       b)
  | CurrentOutput =>
      match active b with
      | Some d => (Completed (d ++ newline)%string, b)
      | None => (Failed (CalledProcessError ""), b)
      end
  | SelectOutput name =>
      if bool_decide (name ∈ devices b)
      then (Completed "", with_active b name)
      else (Failed (CalledProcessError "device not found"), b)
  end.

End Stub.

(** * Vocabulary of the properties *)

Module DifflibSpec.
Import Difflib.

Section Blocks.
Context {A : Type} `{Countable A}.
Implicit Types a b : list A.

(** [a[i:i+k] == b[j:j+k]], both slices inside the sequences. *)
Definition common a b (i j k : nat) : Prop :=
  forall t, t < k -> exists x, a !! (i + t) = Some x /\ b !! (j + t) = Some x.

(** A block [x] lying inside [a[alo:ahi]] and [b[blo:bhi]]. *)
Definition valid a b (alo ahi blo bhi : nat) (x : Match) : Prop :=
  alo <= m_a x /\ m_a x + size x <= ahi /\
  blo <= m_b x /\ m_b x + size x <= bhi /\
  common a b (m_a x) (m_b x) (size x).

(** [b2j] lists under [x] only positions of [b] that hold [x]. *)
Definition indexes b (b2j : gmap A (list nat)) : Prop :=
  forall x js j, b2j !! x = Some js -> j ∈ js -> b !! j = Some x.

(** What [j2len] holds once the rows before [r] are done. *)
Definition row_inv a b (alo blo bhi : nat) (r : nat) (j2len : gmap nat nat)
    : Prop :=
  forall j k, j2len !! j = Some k ->
    1 <= k /\ k <= r - alo /\ k <= j + 1 - blo /\ j < bhi /\
    common a b (r - k) (j + 1 - k) k.

(** The sum of the sizes of the blocks of [l]. *)
Definition total (l : list Match) : nat :=
  foldr (fun triple acc => size triple + acc) 0 l.

(** An entry [(alo, ahi, blo, bhi)] of the queue of
    [get_matching_blocks]. *)
Definition region : Type := nat * nat * nat * nat.

Definition wf_region (q : region) : Prop :=
  let '(alo, ahi, blo, bhi) := q in alo <= ahi /\ blo <= bhi.

(** Fuel that a region may still consume. *)
Definition cost (q : region) : nat :=
  let '(alo, ahi, _, _) := q in 2 * (ahi - alo) + 1.

(** The sum of [f] over the queue. *)
Fixpoint queue_sum (f : region -> nat) (queue : list region) : nat :=
  match queue with
  | [] => 0
  | q :: queue' => f q + queue_sum f queue'
  end.

(** [l[lo:hi]] *)
Definition slice (l : list A) (lo hi : nat) : list A :=
  take (hi - lo) (drop lo l).

(** The elements [a] and [b] share, counted with multiplicity. *)
Definition shared a b : nat :=
  base.size (list_to_set_disj a ∩ list_to_set_disj b : gmultiset A).

(** Two bounds on the matches a region can still yield: the length of its
    shorter side, and the elements its two sides share. *)
Definition wt_len (q : region) : nat :=
  let '(alo, ahi, blo, bhi) := q in Nat.min (ahi - alo) (bhi - blo).

Definition wt_shared a b (q : region) : nat :=
  let '(alo, ahi, blo, bhi) := q in
  shared (slice a alo ahi) (slice b blo bhi).

(** What [avail] and [fullbcount] together say is left of [x]. *)
Definition left_of (full avail : gmap A Z) (x : A) : Z :=
  match avail !! x with
  | Some n => n
  | None => default 0%Z (full !! x)
  end.

End Blocks.

(** The similarity of a possibility [x] to [word], as [get_close_matches]
    computes it: [SequenceMatcher(a=x, b=word).ratio()]. *)
Definition score (word x : string) : Q :=
  ratio (list_ascii_of_string x) (list_ascii_of_string word).

End DifflibSpec.

(** The devices whose lower-cased name contains the lower-cased query. *)
Definition substring_matches (name : string) (devices : list string)
    : list string :=
  List.filter (fun device => Py.contains (Py.lower device) (Py.lower name))
              devices.

(** [max(0, min(100, level))] *)
Definition clamp (level : Z) : Z := Z.max 0 (Z.min 100 level).

(** The commands of the four operations of the controller.  The text of
    [SetVolume level] carries [level / 10]. *)
Definition is_volume_query (cmd : argv) : Prop :=
  cmd = Osascript OutputVolume \/ cmd = Osascript OutputVolumeSE.

Definition sets_volume (level : Z) (cmd : argv) : Prop :=
  cmd = Osascript (SetOutputVolume level) \/
  cmd = Osascript (SetOutputVolumeSE level) \/
  cmd = Osascript (SetVolume level).

Definition is_mute_query (cmd : argv) : Prop :=
  cmd = Osascript OutputMuted \/ cmd = Osascript OutputMutedSE.

Definition sets_muted (state : bool) (cmd : argv) : Prop :=
  cmd = Osascript (SetOutputMuted state) \/
  cmd = Osascript (SetOutputMutedSE state).

(** [m], started with [log], returns or raises (it does not leave the
    program) after running commands that all satisfy [P]. *)
Definition runs_only {W A : Type} (P : argv -> Prop) (m : M A) : Prop :=
  forall (w : W) (log : list argv),
    exists r w' cmds,
      m (w, log) = (r, (w', log ++ cmds)) /\ Forall P cmds /\
      forall code, r <> Exit code.

(** A machine on which no [osascript] call succeeds. *)
Definition osascript_fails {W : Type}
    (subprocess_run : argv -> W -> completed * W) : Prop :=
  forall script w, exists e, (subprocess_run (Osascript script) w).1 = Failed e.

Module StubSpec.
Import Stub.

(** Whether some dialect of an operation is accepted. *)
Definition reads_volume (b : Backend) : bool :=
  granted b OutputVolume || granted b OutputVolumeSE.

Definition writes_volume (b : Backend) (level : Z) : bool :=
  granted b (SetOutputVolume level) || granted b (SetOutputVolumeSE level)
  || granted b (SetVolume level).

Definition reads_mute (b : Backend) : bool :=
  granted b OutputMuted || granted b OutputMutedSE.

Definition writes_mute (b : Backend) (state : bool) : bool :=
  granted b (SetOutputMuted state) || granted b (SetOutputMutedSE state).

(** What [get_volume] makes of the text the backend prints for a level. *)
Definition parsed (v : Z) : option Z :=
  let output := Py.strip (show_Z v ++ newline)%string in
  if Py.truthy output && negb (String.eqb output "missing value")
  then Py.int output else None.

(** A backend with everything granted. *)
Definition backend (devices : list string) (volume : Z) (muted : bool)
    : Backend :=
  mkBackend devices None volume muted (fun _ => true).

End StubSpec.

(** The commands that only read: the two listings of [SwitchAudioSource]
    and the volume and mute queries. *)
Definition is_query (cmd : argv) : Prop :=
  cmd = ListOutputs \/ cmd = CurrentOutput \/
  is_volume_query cmd \/ is_mute_query cmd.


(** A name without blanks at either end and without a line boundary
    inside, and not empty. *)
Definition clean (d : string) : Prop :=
  d <> "" /\ Py.strip d = d /\
  Forall (fun c => Py.islinebreak c = false) (list_ascii_of_string d).


(** [m] runs only commands that satisfy [P], and when it ends the
    program its status satisfies [Q]. *)
Definition behaves {W A : Type} (P : argv -> Prop) (Q : Z -> Prop) (m : M A)
    : Prop :=
  forall (w : W) (log : list argv),
    exists r w' cmds,
      m (w, log) = (r, (w', log ++ cmds)) /\ Forall P cmds /\
      forall code, r = Exit code -> Q code.

(** [m] returns, after running only commands that satisfy [P]. *)
Definition returns_after {W A : Type} (P : argv -> Prop) (m : M A) : Prop :=
  forall (w : W) (log : list argv),
    exists x w' cmds,
      m (w, log) = (Return x, (w', log ++ cmds)) /\ Forall P cmds.

(** [m] does not return: it ends the program or raises. *)
Definition never_returns {W A : Type} (m : M A) : Prop :=
  forall (s s' : W * list argv) (x : A), m s <> (Return x, s').

(** The test of [interactive_mode] for the mute entry of its menu. *)
Definition mute_probe {W : Type} (subprocess_run : argv -> W -> completed * W)
    : M (option string) :=
  try_except
    (bind (run subprocess_run (Osascript OutputMuted))
          (fun stdout => ret (Some (Py.strip stdout))))
    (fun _ => Some (ret None)).

(** The choices that [interactive_mode] offers. *)
Definition menu (devices : list string) (current_device : option string)
    (test_mute : option string) (test_volume : option Z) : list string :=
  let choices := menu_entry current_device <$> devices in
  let choices :=
    match test_mute with
    | Some output =>
        if negb (String.eqb output "missing value")
        then choices ++ ["-- Toggle mute --"] else choices
    | None => choices
    end in
  match test_volume with
  | Some _ =>
      choices ++ ["-- Show volume --"; "-- Increase volume (+10%) --";
                  "-- Decrease volume (-10%) --"; "-- Adjust volume... --"]
  | None => choices
  end.

(** What [interactive_mode] does with the choice of the user. *)
Definition chosen {W : Type} (subprocess_run : argv -> W -> completed * W)
    (ask_text : option string) (choice : string) : M unit :=
  if String.eqb choice "-- Toggle mute --"
  then bind (toggle_mute subprocess_run) (fun _ => ret tt)
  else if String.eqb choice "-- Show volume --"
  then bind (get_volume subprocess_run) (fun _ => ret tt)
  else if String.eqb choice "-- Increase volume (+10%) --"
  then bind (adjust_volume subprocess_run 10) (fun _ => ret tt)
  else if String.eqb choice "-- Decrease volume (-10%) --"
  then bind (adjust_volume subprocess_run (-10)) (fun _ => ret tt)
  else if String.eqb choice "-- Adjust volume... --"
  then
    match ask_text with
    | None => ret tt
    | Some volume_input =>
        match Py.int volume_input with
        | Some level => bind (set_volume subprocess_run level) (fun _ => ret tt)
        | None => raise ValueError
        end
    end
  else
    switch_device subprocess_run
      (if Py.contains choice " (active)"
       then Py.remove " (active)" choice else choice).

(** The entries of the menu that are not devices. *)
Definition menu_labels : list string :=
  ["-- Toggle mute --"; "-- Show volume --"; "-- Increase volume (+10%) --";
   "-- Decrease volume (-10%) --"; "-- Adjust volume... --"].


Definition given {A : Type} (o : option A) : bool :=
  match o with Some _ => true | None => false end.

(** One of the options [-g], [-v], [-u], [-d], [-m] is on the command
    line. *)
Definition controls_audio (args : Args) : bool :=
  arg_get_volume args || given (arg_volume args) ||
  given (arg_volume_up args) || given (arg_volume_down args) ||
  arg_toggle_mute args.



(** The dialects of [set_volume], in the order of the source. *)
Definition set_volume_commands (level : Z) : list argv :=
  [Osascript (SetOutputVolume level); Osascript (SetOutputVolumeSE level);
   Osascript (SetVolume level)].

(** * Properties *)

(** ** The embedding on the examples of the Python documentation *)

Example lower_ex : Py.lower "HomePod Mini" = "homepod mini".
Proof. reflexivity. Qed.

Example contains_ex : Py.contains "airpods pro" "pods" = true.
Proof. reflexivity. Qed.

Example strip_ex : Py.strip ("  a b " ++ Stub.newline)%string = "a b".
Proof. reflexivity. Qed.

Example int_ex :
  Py.int "-1_0" = Some (-10)%Z /\ Py.int "1__0" = None /\
  Py.int "42" = Some 42%Z /\ Py.int "" = None /\ Py.int "+" = None.
Proof. repeat split; reflexivity. Qed.

Example splitlines_ex :
  Py.splitlines ("ab" ++ Stub.newline ++ "cd" ++ Stub.newline)%string
  = ["ab"; "cd"].
Proof. reflexivity. Qed.

(** [find_longest_match(0, 5, 0, 9)] of
    [SequenceMatcher(None, " abcd", "abcd abcd")] *)
Example find_longest_match_ex :
  Difflib.find_longest_match
    (list_ascii_of_string " abcd") (list_ascii_of_string "abcd abcd")
    (Difflib.chain_b (list_ascii_of_string "abcd abcd")) 0 5 0 9
  = Difflib.mkMatch 0 4 5.
Proof. vm_compute. reflexivity. Qed.

(** [SequenceMatcher(None, "abxcd", "abcd").get_matching_blocks()] *)
Example get_matching_blocks_ex :
  Difflib.get_matching_blocks
    (list_ascii_of_string "abxcd") (list_ascii_of_string "abcd")
  = [Difflib.mkMatch 0 0 2; Difflib.mkMatch 3 2 2; Difflib.mkMatch 5 4 0].
Proof. vm_compute. reflexivity. Qed.

(** [SequenceMatcher(None, "abcd", "bcde")]: [ratio()] and [quick_ratio()]
    are 0.75 and [real_quick_ratio()] is 1.0. *)
Example ratio_ex :
  let a := list_ascii_of_string "abcd" in
  let b := list_ascii_of_string "bcde" in
  (Difflib.ratio a b == 75 # 100)%Q /\
  (Difflib.quick_ratio a b == 75 # 100)%Q /\
  (Difflib.real_quick_ratio a b == 1)%Q.
Proof. by vm_compute. Qed.

(** [get_close_matches("appel", ["ape", "apple", "peach", "puppy"])] *)
Example get_close_matches_ex :
  Difflib.get_close_matches "appel" ["ape"; "apple"; "peach"; "puppy"]
    3 (6 # 10)
  = ["apple"; "ape"].
Proof. vm_compute. reflexivity. Qed.

Example matches_ex :
  Difflib.matches (list_ascii_of_string "HomePod Mini")
                  (list_ascii_of_string "HomePood") = 7 /\
  Difflib.matches (list_ascii_of_string "HomePod Mini")
                  (list_ascii_of_string "Xbox Controller") = 2 /\
  Difflib.quick_matches (list_ascii_of_string "HomePod Mini")
                        (list_ascii_of_string "Xbox Controller") = 5.
Proof. by vm_compute. Qed.

(** The examples of section 8 of the specification. *)
Example find_closest_device_ex :
  find_closest_device "Speakers" ["MacBook Pro Speakers"; "Speakers"]
  = Some "Speakers" /\
  find_closest_device "Speakers"
    ["Built-in Speakers"; "External Speakers System"]
  = Some "Built-in Speakers" /\
  find_closest_device "airpods" ["AirPods Pro"; "Studio Display"]
  = Some "AirPods Pro" /\
  find_closest_device "HomePood" ["HomePod Mini"] = Some "HomePod Mini" /\
  find_closest_device "Xbox Controller" ["HomePod Mini"] = None.
Proof. by vm_compute. Qed.

Example list_devices_ex :
  list_devices Stub.subprocess_run
    (Stub.mkBackend ["speakers"; "Speakers"] None 50 false (fun _ => true), [])
  = (Return ["speakers"; "Speakers"],
     (Stub.mkBackend ["speakers"; "Speakers"] None 50 false (fun _ => true),
      [ListOutputs])).
Proof. vm_compute. reflexivity. Qed.

(** ** [SequenceMatcher]: the blocks found are common to both sequences *)

Module DifflibFacts.
Import Difflib DifflibSpec.

Section Blocks.
Context {A : Type} `{Countable A}.
Implicit Types a b : list A.

Lemma chain_from_indexes pre b b2j :
  indexes (pre ++ b) b2j ->
  indexes (pre ++ b) (chain_from (length pre) b b2j).
Proof.
  revert pre b2j. induction b as [|elt b IH]; intros pre b2j Hinv; [done|].
  cbn [chain_from].
  replace (pre ++ elt :: b) with ((pre ++ [elt]) ++ b) in *
    by (by rewrite <- app_assoc).
  replace (S (length pre)) with (length (pre ++ [elt]))
    by (rewrite length_app; simpl; lia).
  apply IH. intros x js j Hx Hj.
  destruct (decide (elt = x)) as [->|Hne].
  - rewrite lookup_insert_eq in Hx. injection Hx as <-.
    apply elem_of_app in Hj as [Hj|Hj].
    + destruct (b2j !! x) as [js0|] eqn:E; simpl in Hj.
      * by eapply Hinv.
      * by apply elem_of_nil in Hj.
    + apply list_elem_of_singleton in Hj as ->.
      rewrite lookup_app_l by (rewrite length_app; simpl; lia).
      by rewrite list_lookup_middle.
  - rewrite lookup_insert_ne in Hx by done. by eapply Hinv.
Qed.

Lemma chain_b_indexes b : indexes b (chain_b b).
Proof.
  assert (Hall : indexes b (chain_from 0 b ∅)).
  { apply (chain_from_indexes [] b ∅). intros x js j Hx.
    by rewrite lookup_empty in Hx. }
  unfold chain_b. destruct (200 <=? length b); [|done].
  intros x js j Hx Hj. rewrite lookup_omap in Hx.
  destruct (chain_from 0 b ∅ !! x) as [js0|] eqn:E; [|done].
  simpl in Hx. destruct (_ <? _) in Hx; [done|].
  injection Hx as <-. by eapply Hall.
Qed.

Lemma common_eq a b i j k i' j' k' :
  common a b i j k -> i = i' -> j = j' -> k = k' -> common a b i' j' k'.
Proof. by intros Hc <- <- <-. Qed.

Lemma common_snoc a b i j k x :
  common a b i j k -> a !! (i + k) = Some x -> b !! (j + k) = Some x ->
  common a b i j (k + 1).
Proof.
  intros Hc Ha Hb t Ht. destruct (decide (t = k)) as [->|].
  - by exists x.
  - apply Hc. lia.
Qed.

Lemma common_cons a b i j k x :
  common a b (S i) (S j) k -> a !! i = Some x -> b !! j = Some x ->
  common a b i j (k + 1).
Proof.
  intros Hc Ha Hb [|t] Ht.
  - exists x. by rewrite !Nat.add_0_r.
  - destruct (Hc t) as (y & ? & ?); [lia|]. exists y.
    by rewrite <- !Nat.add_succ_comm.
Qed.

Lemma same_at_true a b i j :
  same_at a b i j = true -> exists x, a !! i = Some x /\ b !! j = Some x.
Proof.
  unfold same_at. destruct (a !! i) as [x|], (b !! j) as [y|]; try done.
  intros ->%bool_decide_eq_true. by exists y.
Qed.

Section Region.
Variables (a b : list A) (b2j : gmap A (list nat)).
Variables (alo ahi blo bhi : nat).
Hypothesis b2j_indexes : indexes b b2j.

Lemma scan_row_inv j2len i x js newj2len best :
  alo <= i -> i < ahi -> a !! i = Some x ->
  (forall j, j ∈ js -> b !! j = Some x) ->
  row_inv a b alo blo bhi i j2len -> row_inv a b alo blo bhi (i + 1) newj2len ->
  valid a b alo ahi blo bhi best ->
  row_inv a b alo blo bhi (i + 1)
    (scan_row j2len i blo bhi js newj2len best).1 /\
  valid a b alo ahi blo bhi (scan_row j2len i blo bhi js newj2len best).2.
Proof.
  intros Hlo Hhi Hx. revert newj2len best.
  induction js as [|j js IH]; intros newj2len best Hjs Hold Hnew Hbest;
    [done|].
  cbn [scan_row].
  assert (Hjs' : forall j', j' ∈ js -> b !! j' = Some x).
  { intros j' Hj'. apply Hjs. by right. }
  destruct (j <? blo) eqn:E1; [by apply IH|].
  destruct (bhi <=? j) eqn:E2; [done|].
  apply Nat.ltb_ge in E1. apply Nat.leb_gt in E2.
  assert (Hb : b !! j = Some x) by (apply Hjs; by left).
  set (k := j2len_get_pred j2len j + 1).
  assert (Hk : 1 <= k /\ k <= i + 1 - alo /\ k <= j + 1 - blo /\
               common a b (i + 1 - k) (j + 1 - k) k).
  { assert (Hone : common a b i j 1).
    { intros t Ht. exists x. replace t with 0 by lia.
      by rewrite !Nat.add_0_r. }
    subst k. unfold j2len_get_pred.
    destruct j as [|j'].
    - repeat split; try lia.
      eapply common_eq; [exact Hone|lia..].
    - destruct (j2len !! j') as [k'|] eqn:E; unfold default;
        cbn [from_option id].
      + destruct (Hold j' k' E) as (? & ? & ? & ? & Hc).
        repeat split; try lia.
        eapply common_eq;
          [eapply (common_snoc _ _ _ _ _ x); [exact Hc| |]|lia..].
        * by replace (i - k' + k') with i by lia.
        * by replace (j' + 1 - k' + k') with (S j') by lia.
      + repeat split; try lia.
        eapply common_eq; [exact Hone|lia..]. }
  destruct Hk as (Hk1 & Hk2 & Hk3 & Hkc).
  apply IH; [done|done| |].
  - intros j0 k0 Hj0. destruct (decide (j = j0)) as [<-|Hne].
    + rewrite lookup_insert_eq in Hj0. injection Hj0 as <-.
      repeat split; try lia. done.
    + rewrite lookup_insert_ne in Hj0 by done. by apply Hnew.
  - destruct (size best <? k); [|done].
    repeat split; simpl; try lia. done.
Qed.

Lemma scan_rows_valid n i j2len best :
  alo <= i -> i + n <= ahi ->
  row_inv a b alo blo bhi i j2len -> valid a b alo ahi blo bhi best ->
  valid a b alo ahi blo bhi
    (scan_rows a b2j blo bhi (seq i n) j2len best).
Proof.
  revert i j2len best.
  induction n as [|n IH]; intros i j2len best Hlo Hhi Hinv Hbest; [done|].
  cbn [seq scan_rows].
  assert (Hempty : row_inv a b alo blo bhi (i + 1) ∅).
  { intros j k Hj. by rewrite lookup_empty in Hj. }
  destruct (a !! i) as [x|] eqn:Ea.
  - pose proof (scan_row_inv j2len i x (default [] (b2j !! x)) ∅ best)
      as Hrow.
    destruct (scan_row j2len i blo bhi (default [] (b2j !! x)) ∅ best)
      as [newj2len best'].
    destruct Hrow as [Hn Hb]; try done; try lia.
    { intros j Hj. destruct (b2j !! x) as [js|] eqn:E; simpl in Hj.
      - by eapply b2j_indexes.
      - by apply elem_of_nil in Hj. }
    simpl in Hn, Hb. replace (S i) with (i + 1) by lia.
    apply IH; try done; lia.
  - simpl. replace (S i) with (i + 1) by lia. apply IH; try done; lia.
Qed.

Lemma extend_left_valid besti bestj bestsize :
  valid a b alo ahi blo bhi (mkMatch besti bestj bestsize) ->
  valid a b alo ahi blo bhi (extend_left a b alo blo besti bestj bestsize).
Proof.
  revert bestj bestsize.
  induction besti as [|i' IH]; intros bestj bestsize Hv; [done|].
  destruct bestj as [|j']; [done|]. cbn [extend_left].
  destruct (_ && _) eqn:E; [|done].
  apply andb_prop in E as [E Hs]. apply andb_prop in E as [E1 E2].
  apply Nat.ltb_lt in E1, E2.
  apply same_at_true in Hs as (x & Ha & Hb).
  destruct Hv as (? & ? & ? & ? & Hc). simpl in *.
  apply IH. repeat split; simpl; try lia.
  by eapply common_cons.
Qed.

Lemma extend_right_valid steps besti bestj bestsize :
  valid a b alo ahi blo bhi (mkMatch besti bestj bestsize) ->
  valid a b alo ahi blo bhi
    (extend_right a b ahi bhi besti bestj bestsize steps).
Proof.
  revert bestsize.
  induction steps as [|steps IH]; intros bestsize Hv; [done|].
  cbn [extend_right]. destruct (_ && _) eqn:E; [|done].
  apply andb_prop in E as [E Hs]. apply andb_prop in E as [E1 E2].
  apply Nat.ltb_lt in E1, E2.
  apply same_at_true in Hs as (x & Ha & Hb).
  destruct Hv as (? & ? & ? & ? & Hc). simpl in *.
  apply IH. repeat split; simpl; try lia.
  by eapply common_snoc.
Qed.

(** [steps] is enough: where [extend_right] stops, the condition of the
    [while] loop is false. *)
Lemma extend_right_stops steps besti bestj bestsize :
  ahi - (besti + bestsize) <= steps ->
  let m := extend_right a b ahi bhi besti bestj bestsize steps in
  (m_a m + size m <? ahi) && (m_b m + size m <? bhi)
  && same_at a b (m_a m + size m) (m_b m + size m) = false.
Proof.
  revert bestsize. cbv zeta.
  induction steps as [|steps IH]; intros bestsize Hsteps; cbn [extend_right].
  - cbn [m_a m_b size]. replace (besti + bestsize <? ahi) with false; [done|].
    symmetry. apply Nat.ltb_ge. lia.
  - destruct ((besti + bestsize <? ahi) && (bestj + bestsize <? bhi)
              && same_at a b (besti + bestsize) (bestj + bestsize)) eqn:E.
    + apply IH. lia.
    + exact E.
Qed.

(** [find_longest_match] returns a block of the region it is given. *)
Lemma find_longest_match_valid :
  alo <= ahi -> blo <= bhi ->
  valid a b alo ahi blo bhi (find_longest_match a b b2j alo ahi blo bhi).
Proof.
  intros Ha Hb. unfold find_longest_match.
  set (best := scan_rows _ _ _ _ _ _ _).
  assert (Hbest : valid a b alo ahi blo bhi best).
  { apply scan_rows_valid; try lia.
    - intros j k Hj. by rewrite lookup_empty in Hj.
    - repeat split; simpl; try lia. intros t Ht. lia. }
  clearbody best. destruct best as [bi bj bs]. simpl.
  apply extend_left_valid in Hbest.
  destruct (extend_left a b alo blo bi bj bs) as [bi' bj' bs']. simpl.
  by apply extend_right_valid.
Qed.

End Region.

(** *** The loop of [get_matching_blocks] *)

Lemma total_app l1 l2 : total (l1 ++ l2) = total l1 + total l2.
Proof. induction l1 as [|x l1 IH]; simpl; [done|]. rewrite IH. lia. Qed.

Lemma insert_block_total x l : total (insert_block x l) = size x + total l.
Proof.
  induction l as [|y l IH]; simpl; [done|].
  destruct (match_leb x y); simpl; [done|]. rewrite IH. lia.
Qed.

Lemma sort_blocks_total l : total (sort_blocks l) = total l.
Proof.
  induction l as [|x l IH]; simpl; [done|].
  by rewrite insert_block_total, IH.
Qed.

Lemma collapse_total i1 j1 k1 blocks non_adjacent :
  total (collapse i1 j1 k1 blocks non_adjacent)
  = total non_adjacent + k1 + total blocks.
Proof.
  assert (Hflush : forall i j k acc,
    total (if k =? 0 then acc else acc ++ [mkMatch i j k])
    = total acc + k).
  { intros i j k acc. destruct (k =? 0) eqn:E.
    - apply Nat.eqb_eq in E. lia.
    - rewrite total_app. simpl. lia. }
  revert i1 j1 k1 non_adjacent.
  induction blocks as [|x blocks IH]; intros i1 j1 k1 non_adjacent;
    cbn [collapse].
  - rewrite Hflush. simpl. lia.
  - destruct (_ && _); rewrite IH; [|rewrite Hflush]; simpl; lia.
Qed.

Section Loop.
Variables (a b : list A) (b2j : gmap A (list nat)).
Hypothesis b2j_indexes : indexes b b2j.

Lemma blocks_loop_returns fuel queue acc :
  Forall wf_region queue -> queue_sum cost queue <= fuel ->
  is_Some (blocks_loop fuel a b b2j queue acc).
Proof.
  revert queue acc.
  induction fuel as [|fuel IH];
    intros [|[[[alo ahi] blo] bhi] queue] acc Hwf Hfuel;
    try (by eexists).
  { cbn [queue_sum cost] in Hfuel. lia. }
  apply Forall_cons in Hwf as [[Ha Hb] Hwf].
  pose proof (find_longest_match_valid a b b2j alo ahi blo bhi
                b2j_indexes Ha Hb) as (? & ? & ? & ? & _).
  cbn [blocks_loop].
  destruct (find_longest_match a b b2j alo ahi blo bhi) as [i j k].
  cbn [m_a m_b size] in *. cbn [queue_sum cost] in Hfuel.
  destruct (k =? 0) eqn:Ek; [apply IH; [done|lia]|].
  apply Nat.eqb_neq in Ek.
  destruct ((alo <? i) && (blo <? j)) eqn:E1;
    destruct ((i + k <? ahi) && (j + k <? bhi)) eqn:E2;
    try (apply andb_prop in E1 as [?%Nat.ltb_lt ?%Nat.ltb_lt]);
    try (apply andb_prop in E2 as [?%Nat.ltb_lt ?%Nat.ltb_lt]);
    apply IH; repeat (constructor; [split; lia|]); try done;
    cbn [queue_sum cost]; lia.
Qed.

(** A weight on regions that a block and the two regions left around
    it never exceed. *)
Variable wt : region -> nat.
Hypothesis wt_split : forall alo ahi blo bhi x,
  valid a b alo ahi blo bhi x ->
  size x + wt (alo, m_a x, blo, m_b x)
    + wt (m_a x + size x, ahi, m_b x + size x, bhi)
  <= wt (alo, ahi, blo, bhi).

Lemma blocks_loop_bound fuel queue acc blocks :
  Forall wf_region queue ->
  blocks_loop fuel a b b2j queue acc = Some blocks ->
  total blocks <= total acc + queue_sum wt queue.
Proof.
  revert queue acc.
  induction fuel as [|fuel IH];
    intros [|[[[alo ahi] blo] bhi] queue] acc Hwf Hrun;
    try (injection Hrun as <-; cbn [queue_sum]; lia); try done.
  apply Forall_cons in Hwf as [[Ha Hb] Hwf].
  pose proof (find_longest_match_valid a b b2j alo ahi blo bhi
                b2j_indexes Ha Hb) as Hv.
  pose proof (wt_split _ _ _ _ _ Hv) as Hw.
  destruct Hv as (? & ? & ? & ? & _).
  cbn [blocks_loop] in Hrun.
  destruct (find_longest_match a b b2j alo ahi blo bhi) as [i j k].
  cbn [m_a m_b size] in *.
  destruct (k =? 0) eqn:Ek.
  { apply IH in Hrun; [|done]. cbn [queue_sum]. lia. }
  destruct ((alo <? i) && (blo <? j)) eqn:E1;
    destruct ((i + k <? ahi) && (j + k <? bhi)) eqn:E2;
    try (apply andb_prop in E1 as [?%Nat.ltb_lt ?%Nat.ltb_lt]);
    try (apply andb_prop in E2 as [?%Nat.ltb_lt ?%Nat.ltb_lt]);
    apply IH in Hrun;
    try (repeat (constructor; [split; lia|]); done);
    rewrite total_app in Hrun; cbn [queue_sum total foldr size] in *; lia.
Qed.

End Loop.

(** *** Two bounds on the number of matches *)

Lemma slice_split (l : list A) lo mid hi :
  lo <= mid -> mid <= hi -> slice l lo hi = slice l lo mid ++ slice l mid hi.
Proof.
  intros H1 H2. unfold slice.
  replace (hi - lo) with ((mid - lo) + (hi - mid)) by lia.
  rewrite <- take_take_drop, drop_drop.
  by replace (lo + (mid - lo)) with mid by lia.
Qed.

Lemma slice_all (l : list A) : slice l 0 (length l) = l.
Proof. unfold slice. rewrite drop_0, Nat.sub_0_r. by apply take_ge. Qed.

Lemma common_slice a b i j k :
  common a b i j k -> slice a i (i + k) = slice b j (j + k).
Proof.
  intros Hc. apply list_eq. intros t. unfold slice.
  replace (i + k - i) with k by lia. replace (j + k - j) with k by lia.
  destruct (decide (t < k)) as [Ht|Ht].
  - rewrite !lookup_take_lt, !lookup_drop by done.
    by destruct (Hc t Ht) as (x & -> & ->).
  - by rewrite !lookup_take_ge by lia.
Qed.

Lemma common_slice_length a b i j k :
  common a b i j k -> length (slice a i (i + k)) = k.
Proof.
  intros Hc. unfold slice. rewrite length_take, length_drop.
  destruct k as [|k]; [lia|].
  destruct (Hc k) as (x & Hx%lookup_lt_Some & _); lia.
Qed.

Lemma size_list_to_set_disj (l : list A) :
  base.size (list_to_set_disj l : gmultiset A) = length l.
Proof.
  induction l as [|x l IH]; [done|].
  rewrite list_to_set_disj_cons, gmultiset_size_disj_union,
    gmultiset_size_singleton, IH. done.
Qed.

Lemma wt_len_split a b alo ahi blo bhi x :
  valid a b alo ahi blo bhi x ->
  size x + wt_len (alo, m_a x, blo, m_b x)
    + wt_len (m_a x + size x, ahi, m_b x + size x, bhi)
  <= wt_len (alo, ahi, blo, bhi).
Proof. intros (? & ? & ? & ? & _). unfold wt_len. lia. Qed.

Lemma wt_shared_split a b alo ahi blo bhi x :
  valid a b alo ahi blo bhi x ->
  size x + wt_shared a b (alo, m_a x, blo, m_b x)
    + wt_shared a b (m_a x + size x, ahi, m_b x + size x, bhi)
  <= wt_shared a b (alo, ahi, blo, bhi).
Proof.
  destruct x as [i j k]. intros (? & ? & ? & ? & Hc). cbn [m_a m_b size] in *.
  unfold wt_shared, shared.
  rewrite (slice_split a alo i ahi), (slice_split a i (i + k) ahi) by lia.
  rewrite (slice_split b blo j bhi), (slice_split b j (j + k) bhi) by lia.
  rewrite <- (common_slice a b i j k Hc).
  pose proof (common_slice_length a b i j k Hc) as Hlen.
  rewrite <- size_list_to_set_disj in Hlen.
  rewrite !list_to_set_disj_app.
  set (W := list_to_set_disj (slice a i (i + k))) in *.
  set (A1 := list_to_set_disj (slice a alo i)).
  set (A2 := list_to_set_disj (slice a (i + k) ahi)).
  set (B1 := list_to_set_disj (slice b blo j)).
  set (B2 := list_to_set_disj (slice b (j + k) bhi)).
  assert (Hsub : (A1 ∩ B1) ⊎ W ⊎ (A2 ∩ B2)
                 ⊆ (A1 ⊎ (W ⊎ A2)) ∩ (B1 ⊎ (W ⊎ B2))).
  { intros y.
    rewrite multiplicity_intersection, !multiplicity_disj_union,
      !multiplicity_intersection. lia. }
  apply gmultiset_subseteq_size in Hsub.
  rewrite !gmultiset_size_disj_union in Hsub. lia.
Qed.

Lemma get_matching_blocks_loop a b :
  exists blocks,
    blocks_loop (2 * length a + 1) a b (chain_b b)
      [(0, length a, 0, length b)] [] = Some blocks /\
    get_matching_blocks_fuel (2 * length a + 1) a b
    = Some (get_matching_blocks a b) /\
    matches a b = total blocks.
Proof.
  destruct (blocks_loop_returns a b (chain_b b) (chain_b_indexes b)
              (2 * length a + 1) [(0, length a, 0, length b)] [])
    as [blocks Hrun].
  { constructor; [split; lia|constructor]. }
  { cbn [queue_sum cost]. lia. }
  exists blocks. split; [done|].
  unfold matches, get_matching_blocks, get_matching_blocks_fuel.
  rewrite Hrun. cbn [mbind option_bind default from_option id].
  split; [done|].
  change (foldr _ 0 ?l) with (total l).
  rewrite total_app, collapse_total, sort_blocks_total. simpl. lia.
Qed.

(** [get_matching_blocks] never runs out of fuel. *)
Lemma get_matching_blocks_returns a b :
  get_matching_blocks_fuel (2 * length a + 1) a b
  = Some (get_matching_blocks a b).
Proof. by destruct (get_matching_blocks_loop a b) as (? & _ & ? & _). Qed.

Lemma matches_le_weight a b (wt : region -> nat) :
  (forall alo ahi blo bhi x,
     valid a b alo ahi blo bhi x ->
     size x + wt (alo, m_a x, blo, m_b x)
       + wt (m_a x + size x, ahi, m_b x + size x, bhi)
     <= wt (alo, ahi, blo, bhi)) ->
  matches a b <= wt (0, length a, 0, length b).
Proof.
  intros Hsplit.
  destruct (get_matching_blocks_loop a b) as (blocks & Hrun & _ & ->).
  eapply (blocks_loop_bound a b (chain_b b) (chain_b_indexes b) wt Hsplit)
    in Hrun.
  - cbn [queue_sum total foldr] in Hrun. lia.
  - constructor; [split; lia|constructor].
Qed.

(** No more matches than elements in the shorter sequence. *)
Lemma matches_le_min a b : matches a b <= Nat.min (length a) (length b).
Proof.
  pose proof (matches_le_weight a b wt_len (wt_len_split a b)) as Hle.
  unfold wt_len in Hle. lia.
Qed.

(** No more matches than elements the sequences share. *)
Lemma matches_le_shared a b : matches a b <= shared a b.
Proof.
  pose proof (matches_le_weight a b (wt_shared a b) (wt_shared_split a b))
    as Hle.
  unfold wt_shared in Hle. by rewrite !slice_all in Hle.
Qed.

(** *** [quick_ratio] counts the shared elements *)

Lemma fullbcount_from b (m : gmap A Z) (S : gmultiset A) :
  (forall x, default 0%Z (m !! x) = Z.of_nat (multiplicity x S)) ->
  forall x,
    default 0%Z
      (foldl (fun m elt => <[elt := (default 0 (m !! elt) + 1)%Z]> m) m b
         !! x)
    = Z.of_nat (multiplicity x (S ⊎ list_to_set_disj b)).
Proof.
  revert m S. induction b as [|elt b IH]; intros m S Hm x.
  - cbn [foldl]. rewrite Hm, list_to_set_disj_nil, multiplicity_disj_union,
      multiplicity_empty. f_equal. lia.
  - cbn [foldl]. rewrite (IH _ (S ⊎ {[+ elt +]})).
    + rewrite list_to_set_disj_cons, !multiplicity_disj_union. f_equal. lia.
    + intros y. rewrite multiplicity_disj_union.
      destruct (decide (elt = y)) as [->|Hne].
      * rewrite lookup_insert_eq, multiplicity_singleton_eq.
        cbn [default from_option id]. rewrite Hm. lia.
      * rewrite lookup_insert_ne, multiplicity_singleton_ne, Hm by done.
        f_equal. lia.
Qed.

Lemma fullbcount_multiplicity b x :
  default 0%Z (fullbcount b !! x)
  = Z.of_nat (multiplicity x (list_to_set_disj b : gmultiset A)).
Proof.
  unfold fullbcount. rewrite (fullbcount_from b ∅ ∅).
  - by rewrite (left_id_L ∅ (⊎)).
  - intros y. by rewrite lookup_empty, multiplicity_empty.
Qed.

Lemma quick_loop_shared (full : gmap A Z) (B : gmultiset A) a
    (avail : gmap A Z) (S : gmultiset A) (m : nat) :
  (forall x, left_of full avail x
             = (Z.of_nat (multiplicity x B) - Z.of_nat (multiplicity x S))%Z) ->
  m = base.size (S ∩ B) ->
  quick_loop full a avail m = base.size ((S ⊎ list_to_set_disj a) ∩ B).
Proof.
  revert avail S m. induction a as [|elt a IH]; intros avail S m Hleft ->.
  - cbn [quick_loop]. by rewrite list_to_set_disj_nil, (right_id_L ∅ (⊎)).
  - cbn [quick_loop]. fold (left_of full avail elt).
    pose proof (Hleft elt) as Helt.
    rewrite (IH _ (S ⊎ {[+ elt +]})).
    + by rewrite list_to_set_disj_cons, (assoc_L (⊎)).
    + intros y. unfold left_of. rewrite multiplicity_disj_union.
      destruct (decide (elt = y)) as [->|Hne].
      * rewrite lookup_insert_eq, multiplicity_singleton_eq.
        fold (left_of full avail y). lia.
      * rewrite lookup_insert_ne, multiplicity_singleton_ne by done.
        fold (left_of full avail y). rewrite Hleft. lia.
    + destruct (0 <? left_of full avail elt)%Z eqn:E.
      * apply Z.ltb_lt in E.
        replace ((S ⊎ {[+ elt +]}) ∩ B) with ((S ∩ B) ⊎ {[+ elt +]}).
        { by rewrite gmultiset_size_disj_union, gmultiset_size_singleton. }
        apply gmultiset_eq. intros y.
        rewrite !multiplicity_intersection, !multiplicity_disj_union,
          multiplicity_intersection.
        destruct (decide (elt = y)) as [->|Hne].
        -- rewrite multiplicity_singleton_eq. lia.
        -- rewrite multiplicity_singleton_ne by done. lia.
      * apply Z.ltb_ge in E. f_equal.
        apply gmultiset_eq. intros y.
        rewrite !multiplicity_intersection, !multiplicity_disj_union.
        destruct (decide (elt = y)) as [->|Hne].
        -- rewrite multiplicity_singleton_eq. lia.
        -- rewrite multiplicity_singleton_ne by done. lia.
Qed.

Lemma quick_matches_shared a b : quick_matches a b = shared a b.
Proof.
  unfold quick_matches, shared.
  rewrite (quick_loop_shared (fullbcount b) (list_to_set_disj b) a ∅ ∅ 0).
  - by rewrite (left_id_L ∅ (⊎)).
  - intros x. unfold left_of.
    rewrite lookup_empty, fullbcount_multiplicity, multiplicity_empty. lia.
  - replace (∅ ∩ list_to_set_disj b : gmultiset A) with (∅ : gmultiset A).
    + symmetry. apply (gmultiset_size_empty (A:=A)).
    + apply gmultiset_eq. intros y.
      rewrite multiplicity_intersection, multiplicity_empty. lia.
Qed.

(** *** The two quick ratios are upper bounds *)

Lemma calculate_ratio_mono m m' t :
  m <= m' -> (calculate_ratio m t <= calculate_ratio m' t)%Q.
Proof.
  intros Hle. unfold calculate_ratio. destruct t as [|t].
  - apply Qle_refl.
  - unfold Qle. cbn [Qnum Qden]. nia.
Qed.

Lemma ratio_le_quick_ratio a b : (ratio a b <= quick_ratio a b)%Q.
Proof.
  apply calculate_ratio_mono. rewrite quick_matches_shared.
  apply matches_le_shared.
Qed.

Lemma ratio_le_real_quick_ratio a b : (ratio a b <= real_quick_ratio a b)%Q.
Proof. apply calculate_ratio_mono, matches_le_min. Qed.

End Blocks.

(** *** [get_close_matches] *)

(** The two quick ratios never reject what [ratio] accepts. *)
Lemma scored_spec word cutoff x :
  scored word cutoff x
  = if Qle_bool cutoff (score word x) then Some (score word x, x) else None.
Proof.
  unfold scored, score.
  set (a := list_ascii_of_string x). set (b := list_ascii_of_string word).
  destruct (Qle_bool cutoff (ratio a b)) eqn:E.
  - apply Qle_bool_iff in E.
    assert (Hq : Qle_bool cutoff (quick_ratio a b) = true).
    { apply Qle_bool_iff. eapply Qle_trans; [exact E|].
      apply ratio_le_quick_ratio. }
    assert (Hr : Qle_bool cutoff (real_quick_ratio a b) = true).
    { apply Qle_bool_iff. eapply Qle_trans; [exact E|].
      apply ratio_le_real_quick_ratio. }
    by rewrite Hq, Hr.
  - by rewrite andb_false_r.
Qed.

Lemma elem_of_scored word cutoff (possibilities : list string) r x :
  (r, x) ∈ omap (scored word cutoff) possibilities <->
  x ∈ possibilities /\ (cutoff <= score word x)%Q /\ r = score word x.
Proof.
  rewrite list_elem_of_omap. split.
  - intros (y & Hy & Hs). rewrite scored_spec in Hs.
    destruct (Qle_bool cutoff (score word y)) eqn:E; [|done].
    injection Hs as <- <-. by apply Qle_bool_iff in E.
  - intros (Hx & Hc & ->). exists x. split; [done|].
    rewrite scored_spec. apply Qle_bool_iff in Hc. by rewrite Hc.
Qed.

Lemma scored_ltb_true p q : scored_ltb p q = true -> (p.1 <= q.1)%Q.
Proof.
  unfold scored_ltb. destruct (p.1 ?= q.1)%Q eqn:E; [|intros _|done].
  - intros _. apply Qeq_alt in E. rewrite E. apply Qle_refl.
  - apply Qlt_alt in E. by apply Qlt_le_weak.
Qed.

Lemma scored_ltb_false p q : scored_ltb p q = false -> (q.1 <= p.1)%Q.
Proof.
  unfold scored_ltb. destruct (p.1 ?= q.1)%Q eqn:E; [intros _|done|intros _].
  - apply Qeq_alt in E. rewrite E. apply Qle_refl.
  - apply Qgt_alt in E. by apply Qlt_le_weak.
Qed.

Lemma elem_of_insert_desc x l y : y ∈ insert_desc x l <-> y = x \/ y ∈ l.
Proof.
  induction l as [|z l IH]; cbn [insert_desc].
  - rewrite list_elem_of_singleton, elem_of_nil. tauto.
  - destruct (scored_ltb z x); [apply elem_of_cons|].
    rewrite !elem_of_cons, IH. tauto.
Qed.

Lemma elem_of_sorted_desc l y : y ∈ sorted_desc l <-> y ∈ l.
Proof.
  induction l as [|x l IH]; cbn [sorted_desc foldr]; [done|].
  fold (sorted_desc l). rewrite elem_of_insert_desc, elem_of_cons, IH. tauto.
Qed.

(** The head of the sorted list has the best score. *)
Lemma sorted_desc_head l h t :
  sorted_desc l = h :: t -> forall y, y ∈ l -> (y.1 <= h.1)%Q.
Proof.
  revert h t. induction l as [|x l IH]; intros h t Hs y Hy; [done|].
  cbn [sorted_desc foldr] in Hs. fold (sorted_desc l) in Hs.
  destruct (sorted_desc l) as [|z t'] eqn:E.
  - cbn [insert_desc] in Hs. injection Hs as <- <-.
    apply elem_of_cons in Hy as [->|Hy]; [apply Qle_refl|].
    apply elem_of_sorted_desc in Hy. rewrite E in Hy.
    by apply elem_of_nil in Hy.
  - cbn [insert_desc] in Hs. destruct (scored_ltb z x) eqn:Hlt.
    + injection Hs as <- <-.
      apply elem_of_cons in Hy as [->|Hy]; [apply Qle_refl|].
      eapply Qle_trans; [by eapply IH|]. by apply scored_ltb_true.
    + injection Hs as <- <-.
      apply elem_of_cons in Hy as [->|Hy]; [by apply scored_ltb_false|].
      by eapply IH.
Qed.

(** The first close match is a possibility with a score of at least
    [cutoff] that no other possibility beats. *)
Lemma get_close_matches_head_Some word possibilities n cutoff m :
  0 < n ->
  get_close_matches word possibilities n cutoff !! 0 = Some m ->
  m ∈ possibilities /\ (cutoff <= score word m)%Q /\
  forall x, x ∈ possibilities -> (cutoff <= score word x)%Q ->
            (score word x <= score word m)%Q.
Proof.
  intros Hn. unfold get_close_matches, nlargest.
  rewrite list_lookup_fmap, lookup_take_lt by done.
  destruct (sorted_desc _) as [|[r m'] t] eqn:E; [done|].
  cbn. intros [= <-].
  assert (Hin : (r, m') ∈ omap (scored word cutoff) possibilities).
  { apply elem_of_sorted_desc. rewrite E. by left. }
  apply elem_of_scored in Hin as (Hm & Hc & ->).
  repeat split; [done..|]. intros x Hx Hcx.
  apply (sorted_desc_head _ _ _ E (score word x, x)).
  by apply elem_of_scored.
Qed.


End DifflibFacts.

(** ** The resolver *)

Module ResolverFacts.
Import Difflib DifflibSpec DifflibFacts.

Lemma find_first {A : Type} (f : A -> bool) (l : list A) x :
  List.find f l = Some x ->
  exists pre post, l = pre ++ x :: post /\ f x = true /\
                   forall y, y ∈ pre -> f y = false.
Proof.
  induction l as [|z l IH]; [done|]. cbn [List.find].
  destruct (f z) eqn:E.
  - intros [= <-]. exists [], l. repeat split; [done|].
    intros y Hy. by apply elem_of_nil in Hy.
  - intros (pre & post & -> & Hx & Hpre)%IH. exists (z :: pre), post.
    repeat split; [done|]. intros y [->|Hy]%elem_of_cons; auto.
Qed.


(** [min(l, key=key)] is the first of the least elements. *)
Lemma foldl_min_first {A : Type} (key : A -> nat) (l pre post : list A) best :
  (forall y, y ∈ pre -> key best < key y) ->
  (forall y, y ∈ post -> key best <= key y) ->
  exists pre' d post',
    pre ++ best :: post ++ l = pre' ++ d :: post' /\
    foldl (fun best y => if key y <? key best then y else best) best l = d /\
    (forall y, y ∈ pre' -> key d < key y) /\
    (forall y, y ∈ post' -> key d <= key y).
Proof.
  revert pre post best.
  induction l as [|z l IH]; intros pre post best Hpre Hpost.
  - exists pre, best, post. by rewrite app_nil_r.
  - cbn [foldl]. destruct (key z <? key best) eqn:E.
    + apply Nat.ltb_lt in E.
      destruct (IH (pre ++ best :: post) [] z) as (pre' & d & post' & Heq & ?).
      * intros y [Hy|[->|Hy]%elem_of_cons]%elem_of_app; [|done|].
        -- specialize (Hpre y Hy). lia.
        -- specialize (Hpost y Hy). lia.
      * intros y Hy. by apply elem_of_nil in Hy.
      * exists pre', d, post'. split; [|done]. rewrite <- Heq.
        by rewrite <- app_assoc.
    + apply Nat.ltb_ge in E.
      destruct (IH pre (post ++ [z]) best) as (pre' & d & post' & Heq & ?).
      * done.
      * intros y [Hy|Hy]%elem_of_app; [auto|].
        by apply list_elem_of_singleton in Hy as ->.
      * exists pre', d, post'. split; [|done]. rewrite <- Heq.
        by rewrite <- app_assoc.
Qed.

Lemma min_by_first {A : Type} (key : A -> nat) (x : A) (l : list A) :
  exists pre d post,
    x :: l = pre ++ d :: post /\ Py.min_by key (x :: l) = Some d /\
    (forall y, y ∈ pre -> key d < key y) /\
    (forall y, y ∈ post -> key d <= key y).
Proof.
  destruct (foldl_min_first key l [] [] x) as (pre & d & post & Heq & Hd & ?).
  - intros y Hy. by apply elem_of_nil in Hy.
  - intros y Hy. by apply elem_of_nil in Hy.
  - exists pre, d, post. cbn [Py.min_by]. by rewrite Hd.
Qed.

(** The three strategies of [find_closest_device], one equation each. *)
Lemma find_closest_device_exact name devices d :
  List.find (fun device => String.eqb (Py.lower device) (Py.lower name))
            devices = Some d ->
  find_closest_device name devices = Some d.
Proof.
  intros Hf. unfold find_closest_device.
  destruct devices as [|x l]; [done|]. by rewrite Hf.
Qed.

Lemma find_closest_device_inexact name devices :
  List.find (fun device => String.eqb (Py.lower device) (Py.lower name))
            devices = None ->
  find_closest_device name devices
  = match substring_matches name devices with
    | [] => get_close_matches name devices 3 (3 # 10) !! 0
    | [d] => Some d
    | ms => Py.min_by String.length ms
    end.
Proof.
  intros Hf. unfold find_closest_device, substring_matches.
  destruct devices as [|x l]; [done|]. rewrite Hf.
  by destruct (List.filter _ (x :: l)) as [|? [|? ?]].
Qed.


Lemma elem_of_substring_matches name devices d :
  d ∈ substring_matches name devices <->
  d ∈ devices /\ Py.contains (Py.lower d) (Py.lower name) = true.
Proof.
  unfold substring_matches. rewrite !list_elem_of_In.
  apply (filter_In
           (fun device => Py.contains (Py.lower device) (Py.lower name))).
Qed.


End ResolverFacts.

Import Difflib DifflibSpec DifflibFacts ResolverFacts.








(** C4 (the code at the failing input): the fuzzy strategy compares the
    query as typed, so the all-capitals query finds nothing where its
    lower-cased form finds the device. *)
Theorem fuzzy_tier_case_sensitive :
  find_closest_device "HOMEPOOD" ["HomePod Mini"] = None /\
  find_closest_device (Py.lower "HOMEPOOD") ["HomePod Mini"]
  = Some "HomePod Mini".
Proof. by vm_compute. Qed.

(** C10: the resolver returns nothing or an element of the device list,
    and nothing on the empty list. *)
Theorem resolver_result_membership (q : string) (D : list string) :
  (find_closest_device q D = None \/
   exists d, find_closest_device q D = Some d /\ d ∈ D) /\
  find_closest_device q [] = None.
Proof.
  split; [|done].
  destruct (find_closest_device q D) as [d|] eqn:Hres; [right|by left].
  exists d. split; [done|].
  destruct (List.find (fun device => String.eqb (Py.lower device) (Py.lower q))
                      D) as [d'|] eqn:Hf.
  - rewrite (find_closest_device_exact q D d' Hf) in Hres. injection Hres as ->.
    destruct (find_first _ _ _ Hf) as (pre & post & -> & _).
    apply elem_of_app. right. by left.
  - rewrite (find_closest_device_inexact q D Hf) in Hres.
    destruct (substring_matches q D) as [|m [|m' l]] eqn:E.
    + by destruct (get_close_matches_head_Some q D 3 (3 # 10) d) as (? & _);
        [lia|done|].
    + injection Hres as ->.
      apply (elem_of_substring_matches q D d). rewrite E. by left.
    + destruct (min_by_first String.length m (m' :: l))
        as (pre & x & post & Heq & Hm & _).
      rewrite Hm in Hres. injection Hres as ->.
      apply (elem_of_substring_matches q D d). rewrite E, Heq.
      apply elem_of_app. right. by left.
Qed.


(** ** The volume and mute controller *)

Section ControllerFacts.
Context {W : Type} (subprocess_run : argv -> W -> completed * W).

Lemma run_eq cmd (w : W) log :
  run subprocess_run cmd (w, log)
  = (match (subprocess_run cmd w).1 with
     | Completed stdout => Return stdout
     | Failed e => Raise e
     end, ((subprocess_run cmd w).2, log ++ [cmd])).
Proof. unfold run. by destruct (subprocess_run cmd w) as [[?|?] ?]. Qed.

Lemma runs_only_ret {A} (P : argv -> Prop) (x : A) : runs_only (W:=W) P (ret x).
Proof.
  intros w log. exists (Return x), w, []. by rewrite app_nil_r.
Qed.

Lemma runs_only_run (P : argv -> Prop) cmd :
  P cmd -> runs_only P (run subprocess_run cmd).
Proof.
  intros HP w log. rewrite run_eq. eexists _, _, [cmd].
  split; [done|]. split; [by constructor|].
  by destruct (subprocess_run cmd w).1.
Qed.

Lemma runs_only_bind {A B} (P : argv -> Prop) (m : M A) (k : A -> M B) :
  runs_only (W:=W) P m -> (forall x, runs_only P (k x)) ->
  runs_only P (bind m k).
Proof.
  intros Hm Hk w log. unfold bind.
  destruct (Hm w log) as (r & w' & cmds & -> & Hcmds & Hr).
  destruct r as [x|e|code].
  - destruct (Hk x w' (log ++ cmds)) as (r' & w'' & cmds' & -> & Hcmds' & Hr').
    exists r', w'', (cmds ++ cmds'). rewrite app_assoc.
    split; [done|]. split; [by apply Forall_app|done].
  - by exists (Raise e), w', cmds.
  - by destruct (Hr code).
Qed.

Lemma runs_only_try {A} (P : argv -> Prop) (m : M A) handler :
  runs_only (W:=W) P m ->
  (forall e h, handler e = Some h -> runs_only P h) ->
  runs_only P (try_except m handler).
Proof.
  intros Hm Hh w log. unfold try_except.
  destruct (Hm w log) as (r & w' & cmds & -> & Hcmds & Hr).
  destruct r as [x|e|code].
  - by exists (Return x), w', cmds.
  - destruct (handler e) as [h|] eqn:E.
    + destruct (Hh e h E w' (log ++ cmds))
        as (r' & w'' & cmds' & -> & Hcmds' & Hr').
      exists r', w'', (cmds ++ cmds'). rewrite app_assoc.
      split; [done|]. split; [by apply Forall_app|done].
    + by exists (Raise e), w', cmds.
  - by destruct (Hr code).
Qed.

(** A [try] whose last clause is [except Exception] always returns. *)
Lemma runs_only_try_all {A} (P : argv -> Prop) (m : M A) (x : A) :
  runs_only (W:=W) P m ->
  forall w log, exists y w' cmds,
    try_except m (fun _ => Some (ret x)) (w, log)
    = (Return y, (w', log ++ cmds)) /\ Forall P cmds.
Proof.
  intros Hm w log. unfold try_except.
  destruct (Hm w log) as (r & w' & cmds & -> & Hcmds & Hr).
  destruct r as [y|e|code].
  - by exists y, w', cmds.
  - by exists x, w', cmds.
  - by destruct (Hr code).
Qed.

Lemma get_volume_try_runs cmd :
  runs_only (eq (Osascript cmd)) (get_volume_try subprocess_run cmd).
Proof.
  apply runs_only_try.
  - apply runs_only_bind; [by apply runs_only_run|]. intros stdout.
    cbv zeta. destruct (_ && _); [|apply runs_only_ret].
    destruct (Py.int _); [apply runs_only_ret|].
    intros w log. exists (Raise ValueError), w, []. by rewrite app_nil_r.
  - intros [| | |] h [= <-]; apply runs_only_ret.
Qed.

Lemma get_volume_loop_runs commands :
  Forall (fun cmd => is_volume_query (Osascript cmd)) commands ->
  runs_only is_volume_query (get_volume_loop subprocess_run commands).
Proof.
  induction 1 as [|cmd commands Hcmd _ IH]; cbn [get_volume_loop].
  - apply runs_only_ret.
  - apply runs_only_bind.
    + intros w log.
      destruct (get_volume_try_runs cmd w log) as (r & w' & cmds & ? & Hc & ?).
      exists r, w', cmds. split; [done|]. split; [|done].
      eapply Forall_impl; [exact Hc|]. by intros ? <-.
    + intros [v|]; [apply runs_only_ret|done].
Qed.

Lemma get_volume_runs (w : W) log :
  exists r w' cmds,
    get_volume subprocess_run (w, log) = (Return r, (w', log ++ cmds)) /\
    Forall is_volume_query cmds.
Proof.
  apply runs_only_try_all, get_volume_loop_runs.
  repeat (constructor; [unfold is_volume_query; auto|]); constructor.
Qed.

Lemma set_volume_try_runs cmd :
  runs_only (eq (Osascript cmd)) (set_volume_try subprocess_run cmd).
Proof.
  apply runs_only_try.
  - apply runs_only_bind; [by apply runs_only_run|]. intros _.
    apply runs_only_ret.
  - intros [| | |] h [= <-]; apply runs_only_ret.
Qed.

Lemma set_volume_loop_runs (P : argv -> Prop) commands :
  Forall (fun cmd => P (Osascript cmd)) commands ->
  runs_only P (set_volume_loop subprocess_run commands).
Proof.
  induction 1 as [|cmd commands Hcmd _ IH]; cbn [set_volume_loop].
  - apply runs_only_ret.
  - apply runs_only_bind.
    + intros w log.
      destruct (set_volume_try_runs cmd w log) as (r & w' & cmds & ? & Hc & ?).
      exists r, w', cmds. split; [done|]. split; [|done].
      eapply Forall_impl; [exact Hc|]. by intros ? <-.
    + intros [|]; [apply runs_only_ret|done].
Qed.

Lemma set_volume_runs level (w : W) log :
  exists r w' cmds,
    set_volume subprocess_run level (w, log)
    = (Return r, (w', log ++ cmds)) /\
    Forall (sets_volume (clamp level)) cmds.
Proof.
  apply runs_only_try_all, set_volume_loop_runs.
  repeat (constructor; [unfold sets_volume, clamp; auto|]); constructor.
Qed.

Lemma clamp_range level : (0 <= clamp level <= 100)%Z.
Proof. unfold clamp. lia. Qed.

Lemma clamp_clamp level : clamp (clamp level) = clamp level.
Proof. unfold clamp. lia. Qed.

Lemma adjust_volume_eq delta (s : W * list argv) :
  adjust_volume subprocess_run delta s
  = match get_volume subprocess_run s with
    | (Return None, s') => (Return false, s')
    | (Return (Some v), s') => set_volume subprocess_run (clamp (v + delta)) s'
    | (Raise e, s') => (Raise e, s')
    | (Exit code, s') => (Exit code, s')
    end.
Proof.
  unfold adjust_volume, bind.
  by destruct (get_volume subprocess_run s) as [[[v|]|e|code] s'].
Qed.

Lemma check_mute_try_runs cmd :
  runs_only (eq (Osascript cmd)) (check_mute_try subprocess_run cmd).
Proof.
  apply runs_only_try.
  - apply runs_only_bind; [by apply runs_only_run|]. intros stdout.
    cbv zeta. destruct (_ && _); apply runs_only_ret.
  - intros [| | |] h [= <-]; apply runs_only_ret.
Qed.

Lemma check_mute_loop_runs commands :
  Forall (fun cmd => is_mute_query (Osascript cmd)) commands ->
  runs_only is_mute_query (check_mute_loop subprocess_run commands).
Proof.
  induction 1 as [|cmd commands Hcmd _ IH]; cbn [check_mute_loop].
  - apply runs_only_ret.
  - apply runs_only_bind.
    + intros w log.
      destruct (check_mute_try_runs cmd w log) as (r & w' & cmds & ? & Hc & ?).
      exists r, w', cmds. split; [done|]. split; [|done].
      eapply Forall_impl; [exact Hc|]. by intros ? <-.
    + intros [v|]; [apply runs_only_ret|done].
Qed.

Lemma set_mute_try_runs cmd :
  runs_only (eq (Osascript cmd)) (set_mute_try subprocess_run cmd).
Proof.
  apply runs_only_try.
  - apply runs_only_bind; [by apply runs_only_run|]. intros _.
    apply runs_only_ret.
  - intros [| | |] h [= <-]; apply runs_only_ret.
Qed.

(** The second loop of [toggle_mute] runs only its commands and, when it
    returns, returns the opposite of the state read or nothing. *)
Lemma set_mute_loop_runs (P : argv -> Prop) is_muted commands (w : W) log :
  Forall (fun cmd => P (Osascript cmd)) commands ->
  exists r w' cmds,
    set_mute_loop subprocess_run is_muted commands (w, log)
    = (r, (w', log ++ cmds)) /\ Forall P cmds /\
    (r = Return (Some (negb is_muted)) \/ r = Return None \/
     exists e, r = Raise e).
Proof.
  intros Hall. revert w log.
  induction Hall as [|cmd commands Hcmd _ IH]; intros w log;
    cbn [set_mute_loop].
  - exists (Return None), w, []. rewrite app_nil_r. split; [done|]. auto.
  - unfold bind.
    destruct (set_mute_try_runs cmd w log) as (r & w' & cmds & -> & Hc & Hr).
    assert (HP : Forall P cmds).
    { eapply Forall_impl; [exact Hc|]. by intros ? <-. }
    destruct r as [[|]|e|code].
    + exists (Return (Some (negb is_muted))), w', cmds.
      split; [done|]. auto.
    + destruct (IH w' (log ++ cmds)) as (r & w'' & cmds' & -> & Hc' & Hr').
      exists r, w'', (cmds ++ cmds'). rewrite app_assoc.
      split; [done|]. split; [by apply Forall_app|done].
    + exists (Raise e), w', cmds. split; [done|]. eauto.
    + by destruct (Hr code).
Qed.

(** [toggle_mute] reads with mute queries, then sets the opposite of what
    it read, and always returns. *)
Lemma toggle_mute_runs (w : W) log :
  exists read w' queries,
    check_mute_loop subprocess_run [OutputMuted; OutputMutedSE] (w, log)
    = (read, (w', log ++ queries)) /\
    Forall is_mute_query queries /\
    match read with
    | Return (Some is_muted) =>
        exists r w'' sets,
          toggle_mute subprocess_run (w, log)
          = (Return r, (w'', (log ++ queries) ++ sets)) /\
          Forall (sets_muted (negb is_muted)) sets /\
          (r = Some (negb is_muted) \/ r = None)
    | _ =>
        toggle_mute subprocess_run (w, log)
        = (Return None, (w', log ++ queries))
    end.
Proof.
  destruct (check_mute_loop_runs [OutputMuted; OutputMutedSE])
    with (w := w) (log := log) as (read & w' & queries & Hread & Hq & Hexit).
  { repeat (constructor; [unfold is_mute_query; auto|]); constructor. }
  exists read, w', queries. split; [done|]. split; [done|].
  unfold toggle_mute, try_except, bind. rewrite Hread.
  destruct read as [[is_muted|]|e|code]; try done; [|by destruct (Hexit code)].
  destruct (set_mute_loop_runs (sets_muted (negb is_muted))
              is_muted
              [SetOutputMuted (if is_muted then false else true);
               SetOutputMutedSE (if is_muted then false else true)]
              w' (log ++ queries))
    as (r & w'' & sets & -> & Hs & Hr).
  { repeat (constructor;
            [unfold sets_muted; destruct is_muted; auto|]); constructor. }
  destruct Hr as [->|[->|[e ->]]].
  + exists (Some (negb is_muted)), w'', sets. auto.
  + exists None, w'', sets. auto.
  + exists None, w'', sets. auto.
Qed.

End ControllerFacts.

(** ** The controller on the reference backend *)

Module StubFacts.
Import Stub StubSpec.

Lemma parsed_level v : (0 <= v <= 100)%Z -> parsed v = Some v.
Proof.
  intros Hv.
  assert (Hall : forallb (fun n => bool_decide (parsed (Z.of_nat n)
                                                = Some (Z.of_nat n)))
                         (seq 0 101) = true) by (vm_compute; reflexivity).
  rewrite forallb_forall in Hall. specialize (Hall (Z.to_nat v)).
  rewrite Z2Nat.id in Hall by lia. eapply bool_decide_eq_true, Hall.
  apply in_seq. lia.
Qed.

Lemma stub_get_volume_try cmd b log :
  is_volume_query (Osascript cmd) -> (0 <= volume b <= 100)%Z ->
  get_volume_try subprocess_run cmd (b, log)
  = (Return (if granted b cmd then Some (volume b) else None),
     (b, log ++ [Osascript cmd])).
Proof.
  intros Hcmd Hv. pose proof (parsed_level _ Hv) as Hp. unfold parsed in Hp.
  unfold get_volume_try, try_except, bind, run. cbn [subprocess_run].
  destruct Hcmd as [[= ->]|[= ->]]; destruct (granted b _); cbn [osascript];
    try done; cbv zeta in *;
    by destruct (_ && _); [rewrite Hp|].
Qed.

Lemma stub_get_volume b log :
  (0 <= volume b <= 100)%Z ->
  exists log',
    get_volume subprocess_run (b, log)
    = (Return (if reads_volume b then Some (volume b) else None), (b, log')).
Proof.
  intros Hv. unfold reads_volume, get_volume, try_except.
  cbn [get_volume_loop]. unfold bind.
  rewrite !stub_get_volume_try by (unfold is_volume_query; auto).
  destruct (granted b OutputVolume) eqn:E1; [by eexists|].
  rewrite !stub_get_volume_try by (unfold is_volume_query; auto).
  destruct (granted b OutputVolumeSE); [by eexists|].
  rewrite !stub_get_volume_try by (unfold is_volume_query; auto).
  rewrite E1. by eexists.
Qed.

Lemma stub_set_volume_try cmd level b log :
  sets_volume level (Osascript cmd) ->
  set_volume_try subprocess_run cmd (b, log)
  = (Return (granted b cmd),
     (if granted b cmd then with_volume b level else b,
      log ++ [Osascript cmd])).
Proof.
  intros Hcmd. unfold set_volume_try, try_except, bind, run.
  cbn [subprocess_run].
  by destruct Hcmd as [[= ->]|[[= ->]|[= ->]]]; destruct (granted b _).
Qed.

Lemma stub_set_volume level b log :
  exists log',
    set_volume subprocess_run level (b, log)
    = if writes_volume b (clamp level)
      then (Return true, (with_volume b (clamp level), log'))
      else (Return false, (b, log')).
Proof.
  unfold writes_volume, set_volume, try_except. fold (clamp level).
  cbn [set_volume_loop]. unfold bind.
  rewrite (stub_set_volume_try _ (clamp level)) by (unfold sets_volume; auto).
  destruct (granted b (SetOutputVolume _)); [by eexists|].
  rewrite (stub_set_volume_try _ (clamp level)) by (unfold sets_volume; auto).
  destruct (granted b (SetOutputVolumeSE _)); [by eexists|].
  rewrite (stub_set_volume_try _ (clamp level)) by (unfold sets_volume; auto).
  destruct (granted b (SetVolume _)); by eexists.
Qed.

Lemma stub_check_mute_try cmd b log :
  is_mute_query (Osascript cmd) ->
  check_mute_try subprocess_run cmd (b, log)
  = (Return (if granted b cmd then Some (muted b) else None),
     (b, log ++ [Osascript cmd])).
Proof.
  intros Hcmd. unfold check_mute_try, try_except, bind, run.
  cbn [subprocess_run].
  by destruct Hcmd as [[= ->]|[= ->]]; destruct (granted b _);
    cbn [osascript]; destruct (muted b).
Qed.

Lemma stub_set_mute_try cmd state b log :
  sets_muted state (Osascript cmd) ->
  set_mute_try subprocess_run cmd (b, log)
  = (Return (granted b cmd),
     (if granted b cmd then with_muted b state else b,
      log ++ [Osascript cmd])).
Proof.
  intros Hcmd. unfold set_mute_try, try_except, bind, run.
  cbn [subprocess_run].
  by destruct Hcmd as [[= ->]|[= ->]]; destruct (granted b _).
Qed.

Lemma stub_toggle_mute b log :
  exists log',
    toggle_mute subprocess_run (b, log)
    = if reads_mute b
      then if writes_mute b (negb (muted b))
           then (Return (Some (negb (muted b))),
                 (with_muted b (negb (muted b)), log'))
           else (Return None, (b, log'))
      else (Return None, (b, log')).
Proof.
  unfold reads_mute, writes_mute.
  assert (Hset : forall log0, exists log',
    set_mute_loop subprocess_run (muted b)
      [SetOutputMuted (negb (muted b)); SetOutputMutedSE (negb (muted b))]
      (b, log0)
    = if granted b (SetOutputMuted (negb (muted b)))
         || granted b (SetOutputMutedSE (negb (muted b)))
      then (Return (Some (negb (muted b))),
            (with_muted b (negb (muted b)), log'))
      else (Return None, (b, log'))).
  { intros log0. cbn [set_mute_loop]. unfold bind.
    rewrite (stub_set_mute_try _ (negb (muted b))) by (unfold sets_muted; auto).
    destruct (granted b (SetOutputMuted _)); [by eexists|].
    rewrite (stub_set_mute_try _ (negb (muted b))) by (unfold sets_muted; auto).
    destruct (granted b (SetOutputMutedSE _)); by eexists. }
  assert (Hstate : (if muted b then false else true) = negb (muted b))
    by by destruct (muted b).
  unfold toggle_mute, try_except. cbn [check_mute_loop]. unfold bind at 1 2.
  rewrite stub_check_mute_try by (unfold is_mute_query; auto).
  destruct (granted b OutputMuted); cbn [orb ret].
  - rewrite Hstate. destruct (Hset (log ++ [Osascript OutputMuted]))
      as [log' ->]. exists log'. by destruct (_ || _).
  - unfold bind at 1.
    rewrite stub_check_mute_try by (unfold is_mute_query; auto).
    destruct (granted b OutputMutedSE); cbn [ret].
    + rewrite Hstate.
      destruct (Hset ((log ++ [Osascript OutputMuted])
                        ++ [Osascript OutputMutedSE])) as [log' ->].
      exists log'. by destruct (_ || _).
    + by eexists.
Qed.

Lemma stub_adjust_volume delta b log :
  (0 <= volume b <= 100)%Z ->
  exists log',
    adjust_volume subprocess_run delta (b, log)
    = if reads_volume b && writes_volume b (clamp (volume b + delta))
      then (Return true, (with_volume b (clamp (volume b + delta)), log'))
      else (Return false, (b, log')).
Proof.
  intros Hv. rewrite adjust_volume_eq.
  destruct (stub_get_volume b log Hv) as [log1 ->].
  destruct (reads_volume b); [|by eexists].
  destruct (stub_set_volume (clamp (volume b + delta)) b log1) as [log2 ->].
  rewrite clamp_clamp. exists log2. by destruct (writes_volume _ _).
Qed.

End StubFacts.

Import StubSpec StubFacts.

(** C5: [adjust_volume(delta)] first reads the volume, with volume queries
    only.  When the reading is unavailable it returns [False] in the state
    the reading left, so nothing was set; otherwise, at volume [v], it
    returns after running only commands that set the volume to
    [clamp (v + delta)].  On the reference backend the stored volume
    becomes [clamp (v + delta)] (100 for +10 at 95), and stays as it was
    when the volume cannot be read. *)
Theorem adjust_volume_contract :
  (forall (W : Type) (subprocess_run : argv -> W -> completed * W)
          (delta : Z) (w : W) (log : list argv),
     exists current w' queries,
       get_volume subprocess_run (w, log)
       = (Return current, (w', log ++ queries)) /\
       Forall is_volume_query queries /\
       match current with
       | None =>
           adjust_volume subprocess_run delta (w, log)
           = (Return false, (w', log ++ queries))
       | Some v =>
           exists r w'' sets,
             adjust_volume subprocess_run delta (w, log)
             = (Return r, (w'', (log ++ queries) ++ sets)) /\
             Forall (sets_volume (clamp (v + delta))) sets
       end) /\
  (forall (delta : Z) (b : Stub.Backend) (log : list argv),
     (0 <= Stub.volume b <= 100)%Z ->
     exists log',
       adjust_volume Stub.subprocess_run delta (b, log)
       = if reads_volume b
         then if writes_volume b (clamp (Stub.volume b + delta))
              then (Return true,
                    (Stub.with_volume b (clamp (Stub.volume b + delta)), log'))
              else (Return false, (b, log'))
         else (Return false, (b, log'))) /\
  (exists log',
     adjust_volume Stub.subprocess_run 10 (backend [] 95 false, [])
     = (Return true, (backend [] 100 false, log'))).
Proof.
  split; [|split].
  - intros W subprocess_run delta w log.
    destruct (get_volume_runs subprocess_run w log)
      as (current & w' & queries & Hget & Hq).
    exists current, w', queries. split; [done|]. split; [done|].
    rewrite adjust_volume_eq, Hget. destruct current as [v|]; [|done].
    destruct (set_volume_runs subprocess_run (clamp (v + delta)) w'
                (log ++ queries)) as (r & w'' & sets & -> & Hs).
    exists r, w'', sets. by rewrite clamp_clamp in Hs.
  - intros delta b log Hv.
    destruct (stub_adjust_volume delta b log Hv) as [log' ->].
    exists log'. by destruct (reads_volume b).
  - destruct (stub_adjust_volume 10 (backend [] 95 false) []) as [log' ->];
      [by cbn|]. by exists log'.
Qed.

Lemma adjust_volume_contract_witness :
  (0 <= Stub.volume (backend [] 40 false) <= 100)%Z /\
  exists log',
    adjust_volume Stub.subprocess_run (-70) (backend [] 40 false, [])
    = (Return true, (backend [] 0 false, log')).
Proof.
  assert (Hv : (0 <= Stub.volume (backend [] 40 false) <= 100)%Z)
    by (cbn; lia).
  split; [exact Hv|].
  destruct adjust_volume_contract as (_ & Hstub & _).
  exact (Hstub (-70)%Z (backend [] 40 false) [] Hv).
Defined.

(** C6: [set_volume(level)] returns after running only commands that set
    the volume to [clamp level], a value between 0 and 100.  On the
    reference backend the stored volume becomes [clamp level], which
    [get_volume] then reports: 100 after [set_volume(150)] and 0 after
    [set_volume(-20)]. *)
Theorem set_volume_clamps :
  (forall (W : Type) (subprocess_run : argv -> W -> completed * W)
          (level : Z) (w : W) (log : list argv),
     (0 <= clamp level <= 100)%Z /\
     exists r w' cmds,
       set_volume subprocess_run level (w, log)
       = (Return r, (w', log ++ cmds)) /\
       Forall (sets_volume (clamp level)) cmds) /\
  (forall (level : Z) (b : Stub.Backend) (log : list argv),
     writes_volume b (clamp level) = true ->
     exists log',
       set_volume Stub.subprocess_run level (b, log)
       = (Return true, (Stub.with_volume b (clamp level), log')) /\
       (reads_volume b = true ->
        exists log'',
          get_volume Stub.subprocess_run
            (Stub.with_volume b (clamp level), log')
          = (Return (Some (clamp level)),
             (Stub.with_volume b (clamp level), log'')))) /\
  clamp 150 = 100%Z /\ clamp (-20) = 0%Z.
Proof.
  split; [|split; [|done]].
  - intros W subprocess_run level w log. split; [apply clamp_range|].
    apply set_volume_runs.
  - intros level b log Hw.
    destruct (stub_set_volume level b log) as [log' Hset].
    rewrite Hw in Hset. exists log'. split; [done|]. intros Hr.
    destruct (stub_get_volume (Stub.with_volume b (clamp level)) log')
      as [log'' Hget]; [apply clamp_range|].
    exists log''. rewrite Hget.
    change (reads_volume (Stub.with_volume b (clamp level)))
      with (reads_volume b). by rewrite Hr.
Qed.

Lemma set_volume_clamps_witness :
  writes_volume (backend [] 30 false) (clamp 150) = true /\
  reads_volume (backend [] 30 false) = true /\
  exists log' log'',
    set_volume Stub.subprocess_run 150 (backend [] 30 false, [])
    = (Return true, (backend [] 100 false, log')) /\
    get_volume Stub.subprocess_run (backend [] 100 false, log')
    = (Return (Some 100%Z), (backend [] 100 false, log'')).
Proof.
  assert (Hw : writes_volume (backend [] 30 false) (clamp 150) = true)
    by reflexivity.
  assert (Hr : reads_volume (backend [] 30 false) = true) by reflexivity.
  split; [exact Hw|]. split; [exact Hr|].
  destruct set_volume_clamps as (_ & Hstub & _).
  destruct (Hstub 150%Z (backend [] 30 false) [] Hw) as (log' & Hset & Hget).
  destruct (Hget Hr) as (log'' & Hget').
  exists log', log''. split; [exact Hset|exact Hget'].
Defined.


(** C7: [toggle_mute()] first reads the mute state, with mute queries
    only.  When the reading is unavailable it returns [None] in the state
    the reading left, so nothing was set; when it reads [is_muted] it
    returns after running only commands that set the flag to the opposite,
    and what it returns is that opposite state, or [None] when no such
    command succeeded.  On the reference backend the flag becomes the
    opposite of what it was, and a second toggle restores the backend and
    returns the original state. *)
Theorem toggle_mute_contract :
  (forall (W : Type) (subprocess_run : argv -> W -> completed * W)
          (w : W) (log : list argv),
     exists read w' queries,
       check_mute_loop subprocess_run [OutputMuted; OutputMutedSE] (w, log)
       = (read, (w', log ++ queries)) /\
       Forall is_mute_query queries /\
       match read with
       | Return (Some is_muted) =>
           exists r w'' sets,
             toggle_mute subprocess_run (w, log)
             = (Return r, (w'', (log ++ queries) ++ sets)) /\
             Forall (sets_muted (negb is_muted)) sets /\
             (r = Some (negb is_muted) \/ r = None)
       | _ =>
           toggle_mute subprocess_run (w, log)
           = (Return None, (w', log ++ queries))
       end) /\
  (forall (b : Stub.Backend) (log : list argv),
     reads_mute b = false ->
     exists log',
       toggle_mute Stub.subprocess_run (b, log) = (Return None, (b, log'))) /\
  (forall (b : Stub.Backend) (log : list argv),
     reads_mute b = true ->
     writes_mute b true = true -> writes_mute b false = true ->
     exists log1 log2,
       toggle_mute Stub.subprocess_run (b, log)
       = (Return (Some (negb (Stub.muted b))),
          (Stub.with_muted b (negb (Stub.muted b)), log1)) /\
       toggle_mute Stub.subprocess_run
         (Stub.with_muted b (negb (Stub.muted b)), log1)
       = (Return (Some (Stub.muted b)), (b, log2))).
Proof.
  split; [|split].
  - intros W subprocess_run w log. apply toggle_mute_runs.
  - intros b log Hr. destruct (stub_toggle_mute b log) as [log' Ht].
    rewrite Hr in Ht. by exists log'.
  - intros b log Hr Ht Hf.
    assert (Hw : forall state, writes_mute b state = true)
      by by intros [|].
    destruct (stub_toggle_mute b log) as [log1 H1].
    rewrite Hr, Hw in H1.
    destruct (stub_toggle_mute (Stub.with_muted b (negb (Stub.muted b))) log1)
      as [log2 H2].
    change (reads_mute (Stub.with_muted b (negb (Stub.muted b))))
      with (reads_mute b) in H2.
    change (writes_mute (Stub.with_muted b (negb (Stub.muted b))) ?st)
      with (writes_mute b st) in H2.
    rewrite Hr, Hw in H2. exists log1, log2. split; [done|].
    rewrite H2. destruct b as [ds a v m g]. cbn. by rewrite negb_involutive.
Qed.

Lemma toggle_mute_contract_witness :
  reads_mute (backend [] 50 false) = true /\
  writes_mute (backend [] 50 false) true = true /\
  writes_mute (backend [] 50 false) false = true /\
  (exists log1 log2,
     toggle_mute Stub.subprocess_run (backend [] 50 false, [])
     = (Return (Some true), (backend [] 50 true, log1)) /\
     toggle_mute Stub.subprocess_run (backend [] 50 true, log1)
     = (Return (Some false), (backend [] 50 false, log2))) /\
  reads_mute (Stub.mkBackend [] None 50 true (fun _ => false)) = false /\
  (exists log',
     toggle_mute Stub.subprocess_run
       (Stub.mkBackend [] None 50 true (fun _ => false), [])
     = (Return None, (Stub.mkBackend [] None 50 true (fun _ => false), log'))).
Proof.
  assert (Hr : reads_mute (backend [] 50 false) = true) by reflexivity.
  assert (Ht : writes_mute (backend [] 50 false) true = true) by reflexivity.
  assert (Hf : writes_mute (backend [] 50 false) false = true) by reflexivity.
  assert (Hn : reads_mute (Stub.mkBackend [] None 50 true (fun _ => false))
               = false) by reflexivity.
  destruct toggle_mute_contract as (_ & Hnone & Htwice).
  split; [exact Hr|]. split; [exact Ht|]. split; [exact Hf|].
  split; [exact (Htwice (backend [] 50 false) [] Hr Ht Hf)|].
  split; [exact Hn|].
  exact (Hnone (Stub.mkBackend [] None 50 true (fun _ => false)) [] Hn).
Defined.

(** C8: on every machine and in every state, [get_volume], [set_volume],
    [adjust_volume] and [toggle_mute] return: no exception escapes them and
    they do not leave the program.  When no [osascript] call succeeds,
    whatever the exception, they return [None], [False], [False] and
    [None]. *)
Theorem controller_failures_not_fatal :
  forall (W : Type) (subprocess_run : argv -> W -> completed * W)
         (level delta : Z) (s : W * list argv),
    (exists r s', get_volume subprocess_run s = (Return r, s')) /\
    (exists r s', set_volume subprocess_run level s = (Return r, s')) /\
    (exists r s', adjust_volume subprocess_run delta s = (Return r, s')) /\
    (exists r s', toggle_mute subprocess_run s = (Return r, s')) /\
    (osascript_fails subprocess_run ->
     (exists s', get_volume subprocess_run s = (Return None, s')) /\
     (exists s', set_volume subprocess_run level s = (Return false, s')) /\
     (exists s', adjust_volume subprocess_run delta s = (Return false, s')) /\
     (exists s', toggle_mute subprocess_run s = (Return None, s'))).
Proof.
  intros W subprocess_run level delta [w log].
  assert (Hget : forall w log, exists r s',
            get_volume subprocess_run (w, log) = (Return r, s')).
  { intros w0 log0.
    destruct (get_volume_runs subprocess_run w0 log0) as (r & w' & ? & -> & _).
    by eexists _, _. }
  assert (Hset : forall level w log, exists r s',
            set_volume subprocess_run level (w, log) = (Return r, s')).
  { intros l0 w0 log0.
    destruct (set_volume_runs subprocess_run l0 w0 log0)
      as (r & w' & ? & -> & _).
    by eexists _, _. }
  assert (Htoggle : exists r s',
            toggle_mute subprocess_run (w, log) = (Return r, s')).
  { destruct (toggle_mute_runs subprocess_run w log)
      as (read & w' & queries & _ & _ & Hcase).
    destruct read as [[is_muted|]|e|code]; try by eexists _, _.
    destruct Hcase as (r & w'' & sets & -> & _). by eexists _, _. }
  split; [apply Hget|]. split; [apply Hset|]. split; [|split; [done|]].
  - rewrite adjust_volume_eq.
    destruct (Hget w log) as (r & [w' log'] & ->).
    destruct r as [v|]; [apply Hset|by eexists _, _].
  - intros Hfail.
    assert (Hrun : forall script w log, exists e w',
              run subprocess_run (Osascript script) (w, log)
              = (Raise e, (w', log ++ [Osascript script]))).
    { intros script w0 log0. rewrite run_eq.
      destruct (Hfail script w0) as [e ->]. by eexists _, _. }
    assert (Hget_try : forall cmd w log, exists r s',
              get_volume_try subprocess_run cmd (w, log) = (r, s') /\
              (r = Return None \/ exists e, r = Raise e)).
    { intros cmd w0 log0. unfold get_volume_try, try_except, bind.
      destruct (Hrun cmd w0 log0) as (e & w' & ->).
      destruct e; eexists _, _; split; try done; eauto. }
    assert (Hset_try : forall cmd w log, exists r s',
              set_volume_try subprocess_run cmd (w, log) = (r, s') /\
              (r = Return false \/ exists e, r = Raise e)).
    { intros cmd w0 log0. unfold set_volume_try, try_except, bind.
      destruct (Hrun cmd w0 log0) as (e & w' & ->).
      destruct e; eexists _, _; split; try done; eauto. }
    assert (Hcheck_try : forall cmd w log, exists r s',
              check_mute_try subprocess_run cmd (w, log) = (r, s') /\
              (r = Return None \/ exists e, r = Raise e)).
    { intros cmd w0 log0. unfold check_mute_try, try_except, bind.
      destruct (Hrun cmd w0 log0) as (e & w' & ->).
      destruct e; eexists _, _; split; try done; eauto. }
    assert (Hget_none : forall w log, exists s',
              get_volume subprocess_run (w, log) = (Return None, s')).
    { intros w0 log0. unfold get_volume, try_except.
      cbn [get_volume_loop]. unfold bind.
      destruct (Hget_try OutputVolume w0 log0)
        as (r1 & [w1 log1] & -> & [->|[e ->]]); [|by eexists].
      destruct (Hget_try OutputVolumeSE w1 log1)
        as (r2 & [w2 log2] & -> & [->|[e ->]]); [|by eexists].
      destruct (Hget_try OutputVolume w2 log2)
        as (r3 & [w3 log3] & -> & [->|[e ->]]); by eexists. }
    assert (Hset_false : forall level w log, exists s',
              set_volume subprocess_run level (w, log) = (Return false, s')).
    { intros l0 w0 log0. unfold set_volume, try_except.
      cbn [set_volume_loop]. unfold bind.
      destruct (Hset_try (SetOutputVolume (Z.max 0 (Z.min 100 l0))) w0 log0)
        as (r1 & [w1 log1] & -> & [->|[e ->]]); [|by eexists].
      destruct (Hset_try (SetOutputVolumeSE (Z.max 0 (Z.min 100 l0))) w1 log1)
        as (r2 & [w2 log2] & -> & [->|[e ->]]); [|by eexists].
      destruct (Hset_try (SetVolume (Z.max 0 (Z.min 100 l0))) w2 log2)
        as (r3 & [w3 log3] & -> & [->|[e ->]]); by eexists. }
    split; [apply Hget_none|]. split; [apply Hset_false|]. split.
    + rewrite adjust_volume_eq. destruct (Hget_none w log) as [s' ->].
      by eexists.
    + unfold toggle_mute, try_except. cbn [check_mute_loop]. unfold bind.
      destruct (Hcheck_try OutputMuted w log)
        as (r1 & [w1 log1] & -> & [->|[e ->]]); [|by eexists].
      destruct (Hcheck_try OutputMutedSE w1 log1)
        as (r2 & [w2 log2] & -> & [->|[e ->]]); by eexists.
Qed.

Lemma controller_failures_not_fatal_witness :
  osascript_fails (fun (_ : argv) (w : unit) => (Failed FileNotFoundError, w)) /\
  (exists s', get_volume (fun _ (w : unit) => (Failed FileNotFoundError, w))
                (tt, []) = (Return None, s')) /\
  (exists s', set_volume (fun _ (w : unit) => (Failed FileNotFoundError, w))
                50 (tt, []) = (Return false, s')) /\
  (exists s', adjust_volume (fun _ (w : unit) => (Failed FileNotFoundError, w))
                10 (tt, []) = (Return false, s')) /\
  (exists s', toggle_mute (fun _ (w : unit) => (Failed FileNotFoundError, w))
                (tt, []) = (Return None, s')).
Proof.
  assert (Hfail : osascript_fails
            (fun (_ : argv) (w : unit) => (Failed FileNotFoundError, w))).
  { intros script w. by exists FileNotFoundError. }
  split; [exact Hfail|].
  destruct (controller_failures_not_fatal unit
              (fun _ w => (Failed FileNotFoundError, w)) 50 10 (tt, []))
    as (_ & _ & _ & _ & Hnone).
  exact (Hnone Hfail).
Defined.

(** C9: when the name given is, byte for byte, one of the devices that
    [list_devices] returned, [switch_device] does what selecting that very
    name does and runs one more command, the selection of that name; the
    resolver plays no part.  On the reference backend with the devices
    "speakers" and "Speakers", switching to "Speakers" selects "Speakers",
    although the resolver alone would answer "speakers". *)
Theorem switch_device_exact_bypass (W : Type)
    (subprocess_run : argv -> W -> completed * W)
    (q : string) (D : list string) (s s' : W * list argv) :
  list_devices subprocess_run s = (Return D, s') -> q ∈ D ->
  switch_device subprocess_run q s = select_or_exit subprocess_run q s' /\
  (exists r w'',
     switch_device subprocess_run q s = (r, (w'', s'.2 ++ [SelectOutput q])) /\
     (r = Return tt \/ r = Exit 1 \/ exists e, r = Raise e)) /\
  find_closest_device "Speakers" ["speakers"; "Speakers"] = Some "speakers" /\
  switch_device Stub.subprocess_run "Speakers"
    (backend ["speakers"; "Speakers"] 50 false, [])
  = (Return tt,
     (Stub.with_active (backend ["speakers"; "Speakers"] 50 false) "Speakers",
      [ListOutputs; SelectOutput "Speakers"])).
Proof.
  intros Hlist Hq.
  assert (Heq : switch_device subprocess_run q s
                = select_or_exit subprocess_run q s').
  { unfold switch_device, bind. rewrite Hlist.
    by rewrite bool_decide_eq_true_2. }
  split; [done|]. split; [|split; by vm_compute].
  rewrite Heq. destruct s' as [w' log'].
  unfold select_or_exit, try_except, bind. rewrite run_eq.
  destruct (subprocess_run (SelectOutput q) w').1 as [stdout|e];
    cbn [snd]; [by eexists _, _; eauto|].
  destruct e; eexists _, _; split; try done; eauto.
Qed.

Lemma switch_device_exact_bypass_witness :
  list_devices Stub.subprocess_run
    (backend ["AirPods Pro"; "airpods pro"] 50 false, [])
  = (Return ["AirPods Pro"; "airpods pro"],
     (backend ["AirPods Pro"; "airpods pro"] 50 false, [ListOutputs])) /\
  "airpods pro" ∈ ["AirPods Pro"; "airpods pro"] /\
  switch_device Stub.subprocess_run "airpods pro"
    (backend ["AirPods Pro"; "airpods pro"] 50 false, [])
  = select_or_exit Stub.subprocess_run "airpods pro"
      (backend ["AirPods Pro"; "airpods pro"] 50 false, [ListOutputs]).
Proof.
  assert (Hlist : list_devices Stub.subprocess_run
      (backend ["AirPods Pro"; "airpods pro"] 50 false, [])
    = (Return ["AirPods Pro"; "airpods pro"],
       (backend ["AirPods Pro"; "airpods pro"] 50 false, [ListOutputs])))
    by (vm_compute; reflexivity).
  assert (Hq : "airpods pro" ∈ ["AirPods Pro"; "airpods pro"])
    by (right; left).
  split; [exact Hlist|]. split; [exact Hq|].
  exact (proj1 (switch_device_exact_bypass _ Stub.subprocess_run "airpods pro"
                  _ _ _ Hlist Hq)).
Defined.

(** * Further properties of the program *)

(** ** Strings *)

Section StringFacts.

Lemma prefix_refl s : String.prefix s s = true.
Proof.
  induction s as [|c s IH]; [done|]. cbn [String.prefix].
  by destruct (ascii_dec c c).
Qed.

Lemma contains_refl s : Py.contains s s = true.
Proof. destruct s; cbn [Py.contains]; by rewrite prefix_refl. Qed.



Lemma append_String c s t : (String c s ++ t)%string = String c (s ++ t).
Proof. reflexivity. Qed.



End StringFacts.

(** ** The resolver, beyond its three tiers *)

Section ResolverMore.


(** What the substring strategy returns is the first of the shortest
    devices that contain the query. *)
Lemma substring_choice_first name devices :
  substring_matches name devices <> [] ->
  exists pre d post,
    substring_matches name devices = pre ++ d :: post /\
    match substring_matches name devices with
    | [] => get_close_matches name devices 3 (3 # 10) !! 0
    | [d] => Some d
    | ms => Py.min_by String.length ms
    end = Some d /\
    (forall x, x ∈ pre -> String.length d < String.length x) /\
    (forall x, x ∈ post -> String.length d <= String.length x).
Proof.
  intros Hms. destruct (substring_matches name devices) as [|m [|m' l]];
    [done| |].
  - exists [], m, []. repeat split; try done;
      intros x Hx; by apply elem_of_nil in Hx.
  - destruct (min_by_first String.length m (m' :: l))
      as (pre & d & post & Heq & Hm & Hpre & Hpost).
    by exists pre, d, post.
Qed.

Lemma substring_choice name devices :
  substring_matches name devices <> [] ->
  exists d,
    match substring_matches name devices with
    | [] => get_close_matches name devices 3 (3 # 10) !! 0
    | [d] => Some d
    | ms => Py.min_by String.length ms
    end = Some d /\
    d ∈ substring_matches name devices /\
    forall x, x ∈ substring_matches name devices ->
              String.length d <= String.length x.
Proof.
  intros Hms.
  destruct (substring_choice_first name devices Hms)
    as (pre & d & post & Heq & Hd & Hpre & Hpost).
  exists d. split; [done|]. rewrite Heq. split.
  - apply elem_of_app. right. by left.
  - intros x [Hx|[->|Hx]%elem_of_cons]%elem_of_app; [|done|by apply Hpost].
    specialize (Hpre x Hx). lia.
Qed.











Lemma exact_is_substring name devices d :
  List.find (fun device => String.eqb (Py.lower device) (Py.lower name))
            devices = Some d ->
  d ∈ substring_matches name devices.
Proof.
  intros Hf. destruct (find_first _ _ _ Hf) as (pre & post & -> & Hd & _).
  apply String.eqb_eq in Hd. apply elem_of_substring_matches. split.
  - apply elem_of_app. right. by left.
  - rewrite Hd. apply contains_refl.
Qed.

Lemma find_closest_device_elem name devices d :
  find_closest_device name devices = Some d -> d ∈ devices.
Proof.
  intros Hres.
  destruct (List.find (fun device => String.eqb (Py.lower device)
                                                (Py.lower name)) devices)
    as [d'|] eqn:Hf.
  - rewrite (find_closest_device_exact name devices d' Hf) in Hres.
    injection Hres as ->.
    by apply exact_is_substring, elem_of_substring_matches in Hf as [? _].
  - rewrite (find_closest_device_inexact name devices Hf) in Hres.
    destruct (substring_matches name devices) as [|m l] eqn:E.
    + by destruct (get_close_matches_head_Some name devices 3 (3 # 10) d)
        as (? & _); [lia|done|].
    + destruct (substring_choice name devices) as (x & Hx & Hin & _);
        [by rewrite E|].
      rewrite E in Hx. rewrite Hx in Hres. injection Hres as <-.
      by apply elem_of_substring_matches in Hin as [? _].
Qed.

End ResolverMore.













(** ** Reading the output of [SwitchAudioSource] *)

Section LineFacts.

Lemma lstrip_head s c r : Py.lstrip s = String c r -> Py.isspace c = false.
Proof.
  induction s as [|c' s IH]; [done|]. cbn [Py.lstrip].
  destruct (Py.isspace c') eqn:E; [done|]. by intros [= <- _].
Qed.

Lemma rstrip_idem s : Py.rstrip (Py.rstrip s) = Py.rstrip s.
Proof.
  induction s as [|c s IH]; [done|]. cbn [Py.rstrip].
  destruct (Py.rstrip s) as [|c' r] eqn:E.
  - destruct (Py.isspace c) eqn:Ec; [done|]. cbn [Py.rstrip]. by rewrite Ec.
  - cbn [Py.rstrip] in IH |- *. by rewrite IH.
Qed.

Lemma rstrip_head s c :
  Py.isspace c = false ->
  exists r', Py.rstrip (String c s) = String c r'.
Proof.
  intros Ec. cbn [Py.rstrip]. destruct (Py.rstrip s); rewrite ?Ec; eauto.
Qed.

(** [s.strip().strip() == s.strip()] *)
Lemma strip_idem s : Py.strip (Py.strip s) = Py.strip s.
Proof.
  unfold Py.strip. destruct (Py.lstrip s) as [|c t] eqn:E; [done|].
  pose proof (lstrip_head _ _ _ E) as Ec.
  destruct (rstrip_head t c Ec) as [r' Hr]. rewrite Hr.
  cbn [Py.lstrip]. rewrite Ec, <- Hr. apply rstrip_idem.
Qed.

Lemma lstrip_chars (P : ascii -> Prop) s :
  Forall P (list_ascii_of_string s) ->
  Forall P (list_ascii_of_string (Py.lstrip s)).
Proof.
  induction s as [|c s IH]; [done|]. cbn [Py.lstrip list_ascii_of_string].
  intros Hall. destruct (Py.isspace c); [|done].
  apply IH. by apply Forall_cons in Hall as [_ ?].
Qed.

Lemma rstrip_chars (P : ascii -> Prop) s :
  Forall P (list_ascii_of_string s) ->
  Forall P (list_ascii_of_string (Py.rstrip s)).
Proof.
  induction s as [|c s IH]; [done|]. cbn [Py.rstrip list_ascii_of_string].
  intros [Hc Hs]%Forall_cons. specialize (IH Hs).
  destruct (Py.rstrip s) as [|c' r].
  - destruct (Py.isspace c); [constructor|]. by repeat constructor.
  - by constructor.
Qed.

Lemma strip_chars (P : ascii -> Prop) s :
  Forall P (list_ascii_of_string s) ->
  Forall P (list_ascii_of_string (Py.strip s)).
Proof. intros Hall. by apply rstrip_chars, lstrip_chars. Qed.

(** No line holds a line boundary. *)
Lemma splitlines_from_chars n cur s :
  String.length s <= n ->
  Forall (fun c => Py.islinebreak c = false) cur ->
  Forall (fun line => Forall (fun c => Py.islinebreak c = false)
                             (list_ascii_of_string line))
         (Py.splitlines_from cur s).
Proof.
  revert cur s. induction n as [|n IH]; intros cur [|c s] Hlen Hcur;
    cbn [Py.splitlines_from String.length] in *; try lia.
  - destruct cur as [|c' cur']; constructor; [|constructor].
    rewrite list_ascii_of_string_of_list_ascii. by apply Forall_rev.
  - destruct cur as [|c' cur']; constructor; [|constructor].
    rewrite list_ascii_of_string_of_list_ascii. by apply Forall_rev.
  - destruct (Py.islinebreak c) eqn:Ec.
    + constructor.
      { rewrite list_ascii_of_string_of_list_ascii. by apply Forall_rev. }
      destruct s as [|c' s']; [constructor|].
      cbn [String.length] in Hlen.
      destruct (_ && _); apply IH; cbn [String.length]; try lia; constructor.
    + apply IH; [lia|]. by constructor.
Qed.

End LineFacts.

Section ListingFacts.
Context {W : Type} (subprocess_run : argv -> W -> completed * W).



Lemma clean_truthy d : clean d -> Py.truthy d = true.
Proof. intros (Hd & _). by destruct d. Qed.





Lemma filter_clean (stdout : string) :
  Forall clean (List.filter Py.truthy (Py.strip <$> Py.splitlines stdout)).
Proof.
  apply Forall_forall. intros d Hd. apply list_elem_of_In in Hd.
  apply filter_In in Hd as [Hd Ht]. apply list_elem_of_In in Hd.
  apply list_elem_of_fmap in Hd as (line & -> & Hline).
  repeat split.
  - intros Hempty. by rewrite Hempty in Ht.
  - apply strip_idem.
  - apply strip_chars.
    pose proof (splitlines_from_chars (String.length stdout) [] stdout
                  (le_n _) (Forall_nil_2 _)) as Hall.
    rewrite Forall_forall in Hall. by apply Hall.
Qed.

(** [list_devices] runs the listing and nothing else; it leaves the
    program when the tool is missing or fails, and the names it returns
    are clean. *)
Lemma list_devices_run (w : W) log :
  exists r,
    list_devices subprocess_run (w, log)
    = (r, ((subprocess_run ListOutputs w).2, log ++ [ListOutputs])) /\
    match (subprocess_run ListOutputs w).1 with
    | Completed stdout =>
        exists names, r = Return names /\ Forall clean names /\
                      names = List.filter Py.truthy
                                (Py.strip <$> Py.splitlines stdout)
    | Failed FileNotFoundError | Failed (CalledProcessError _) => r = Exit 1
    | Failed e => r = Raise e
    end.
Proof.
  unfold list_devices, bind, try_except. rewrite run_eq.
  destruct (subprocess_run ListOutputs w).1 as [stdout|[| | |]];
    eexists; (split; [reflexivity|]); try done.
  eexists. split; [done|]. split; [apply filter_clean|done].
Qed.

Lemma list_devices_clean (s s' : W * list argv) names :
  list_devices subprocess_run s = (Return names, s') -> Forall clean names.
Proof.
  destruct s as [w log]. intros Hl.
  destruct (list_devices_run w log) as (r & Hr & Hcase).
  rewrite Hl in Hr. injection Hr as <- _.
  destruct (subprocess_run ListOutputs w).1 as [stdout|[| | |]]; try done.
  by destruct Hcase as (names' & [= <-] & ? & _).
Qed.

Lemma get_current_device_run (w : W) log :
  get_current_device subprocess_run (w, log)
  = (match (subprocess_run CurrentOutput w).1 with
     | Completed stdout => Return (Some (Py.strip stdout))
     | Failed (CalledProcessError _) => Return None
     | Failed e => Raise e
     end, ((subprocess_run CurrentOutput w).2, log ++ [CurrentOutput])).
Proof.
  unfold get_current_device, bind, try_except. rewrite run_eq.
  by destruct (subprocess_run CurrentOutput w).1 as [stdout|[| | |]].
Qed.

End ListingFacts.





(** ** What the program runs and how it ends *)

Section Behaviour.
Context {W : Type} (subprocess_run : argv -> W -> completed * W).

Lemma behaves_ret {A} P Q (x : A) : behaves (W:=W) P Q (ret x).
Proof. intros w log. exists (Return x), w, []. by rewrite app_nil_r. Qed.


Lemma behaves_exit {A} P (Q : Z -> Prop) code :
  Q code -> behaves (W:=W) (A:=A) P Q (sys_exit code).
Proof.
  intros HQ w log. exists (Exit code), w, []. rewrite app_nil_r.
  split; [done|]. split; [done|]. by intros ? [= <-].
Qed.

Lemma behaves_run (P : argv -> Prop) Q cmd :
  P cmd -> behaves P Q (run subprocess_run cmd).
Proof.
  intros HP w log. rewrite run_eq. eexists _, _, [cmd].
  split; [done|]. split; [by constructor|].
  by destruct (subprocess_run cmd w).1.
Qed.

Lemma behaves_bind {A B} P Q (m : M A) (k : A -> M B) :
  behaves (W:=W) P Q m -> (forall x, behaves P Q (k x)) ->
  behaves P Q (bind m k).
Proof.
  intros Hm Hk w log. unfold bind.
  destruct (Hm w log) as (r & w' & cmds & -> & Hcmds & Hr).
  destruct r as [x|e|code].
  - destruct (Hk x w' (log ++ cmds)) as (r' & w'' & cmds' & -> & Hcmds' & Hr').
    exists r', w'', (cmds ++ cmds'). rewrite app_assoc.
    split; [done|]. split; [by apply Forall_app|done].
  - by exists (Raise e), w', cmds.
  - exists (Exit code), w', cmds. split; [done|]. split; [done|].
    intros c [= <-]. by apply Hr.
Qed.

Lemma behaves_try {A} P Q (m : M A) handler :
  behaves (W:=W) P Q m ->
  (forall e h, handler e = Some h -> behaves P Q h) ->
  behaves P Q (try_except m handler).
Proof.
  intros Hm Hh w log. unfold try_except.
  destruct (Hm w log) as (r & w' & cmds & -> & Hcmds & Hr).
  destruct r as [x|e|code].
  - by exists (Return x), w', cmds.
  - destruct (handler e) as [h|] eqn:E.
    + destruct (Hh e h E w' (log ++ cmds))
        as (r' & w'' & cmds' & -> & Hcmds' & Hr').
      exists r', w'', (cmds ++ cmds'). rewrite app_assoc.
      split; [done|]. split; [by apply Forall_app|done].
    + by exists (Raise e), w', cmds.
  - exists (Exit code), w', cmds. split; [done|]. split; [done|].
    intros c [= <-]. by apply Hr.
Qed.

Lemma behaves_weaken {A} (P P' : argv -> Prop) (Q Q' : Z -> Prop) (m : M A) :
  (forall cmd, P cmd -> P' cmd) -> (forall code, Q code -> Q' code) ->
  behaves (W:=W) P Q m -> behaves P' Q' m.
Proof.
  intros HP HQ Hm w log.
  destruct (Hm w log) as (r & w' & cmds & -> & Hcmds & Hr).
  exists r, w', cmds. split; [done|].
  split; [by eapply Forall_impl|]. intros code Hc. by apply HQ, Hr.
Qed.

Lemma returns_after_behaves {A} P Q (m : M A) :
  returns_after (W:=W) P m -> behaves P Q m.
Proof.
  intros Hm w log. destruct (Hm w log) as (x & w' & cmds & -> & Hcmds).
  by exists (Return x), w', cmds.
Qed.

Lemma returns_after_weaken {A} (P P' : argv -> Prop) (m : M A) :
  (forall cmd, P cmd -> P' cmd) ->
  returns_after (W:=W) P m -> returns_after P' m.
Proof.
  intros HP Hm w log. destruct (Hm w log) as (x & w' & cmds & -> & Hcmds).
  exists x, w', cmds. split; [done|]. by eapply Forall_impl.
Qed.





Lemma get_volume_returns :
  returns_after is_volume_query (get_volume subprocess_run).
Proof. intros w log. apply get_volume_runs. Qed.




Lemma list_devices_behaves :
  behaves (eq ListOutputs) (eq 1%Z) (list_devices subprocess_run).
Proof.
  intros w log. destruct (list_devices_run subprocess_run w log)
    as (r & -> & Hcase).
  eexists _, _, [ListOutputs]. split; [done|].
  split; [by constructor|]. intros code ->.
  destruct (subprocess_run ListOutputs w).1 as [stdout|[| | |]];
    try done; try by injection Hcase.
  by destruct Hcase as (? & ? & _).
Qed.

Lemma get_current_device_behaves Q :
  behaves (eq CurrentOutput) Q (get_current_device subprocess_run).
Proof.
  intros w log. rewrite get_current_device_run.
  eexists _, _, [CurrentOutput]. split; [done|].
  split; [by constructor|]. intros code.
  by destruct (subprocess_run CurrentOutput w).1 as [stdout|[| | |]].
Qed.

Lemma select_or_exit_run name (w : W) log :
  select_or_exit subprocess_run name (w, log)
  = (match (subprocess_run (SelectOutput name) w).1 with
     | Completed _ => Return tt
     | Failed (CalledProcessError _) => Exit 1
     | Failed e => Raise e
     end,
     ((subprocess_run (SelectOutput name) w).2, log ++ [SelectOutput name])).
Proof.
  unfold select_or_exit, bind, try_except. rewrite run_eq.
  by destruct (subprocess_run (SelectOutput name) w).1 as [stdout|[| | |]].
Qed.


(** The truth test of [switch_device] on the match never fails: the
    match is a listed name, and listed names are not empty. *)
Lemma switch_device_eq name (s s1 : W * list argv) names :
  list_devices subprocess_run s = (Return names, s1) ->
  switch_device subprocess_run name s
  = if bool_decide (name ∈ names) then select_or_exit subprocess_run name s1
    else match find_closest_device name names with
         | Some d => select_or_exit subprocess_run d s1
         | None => (Exit 1, s1)
         end.
Proof.
  intros Hl. unfold switch_device, bind. rewrite Hl.
  destruct (bool_decide (name ∈ names)); [done|].
  destruct (find_closest_device name names) as [d|] eqn:Hres; [|done].
  apply find_closest_device_elem in Hres.
  pose proof (list_devices_clean subprocess_run _ _ _ Hl) as Hclean.
  rewrite Forall_forall in Hclean.
  by rewrite (clean_truthy d (Hclean d Hres)).
Qed.


End Behaviour.

(** X10: on every machine [switch_device] runs the listing and then at
    most one selection, of a name that the listing returned.  When it
    selects nothing it ends the program with status 1 (or the listing
    raised); it returns exactly when the selection succeeded. *)
Theorem switch_device_selects_listed (W : Type)
    (subprocess_run : argv -> W -> completed * W)
    (name : string) (w : W) (log : list argv) :
  exists r w' cmds,
    switch_device subprocess_run name (w, log) = (r, (w', log ++ cmds)) /\
    ((cmds = [ListOutputs] /\ (r = Exit 1 \/ exists e, r = Raise e)) \/
     exists names w1 d,
       list_devices subprocess_run (w, log)
       = (Return names, (w1, log ++ [ListOutputs])) /\
       d ∈ names /\ (name ∈ names -> d = name) /\
       cmds = [ListOutputs; SelectOutput d] /\
       (r = Return tt <->
        exists stdout,
          (subprocess_run (SelectOutput d) w1).1 = Completed stdout)).
Proof.
  destruct (list_devices_run subprocess_run w log) as (r0 & Hl & Hcase).
  assert (Hsel : forall names d,
            r0 = Return names -> d ∈ names -> (name ∈ names -> d = name) ->
            switch_device subprocess_run name (w, log)
            = select_or_exit subprocess_run d
                ((subprocess_run ListOutputs w).2, log ++ [ListOutputs]) ->
            exists r w' cmds,
              switch_device subprocess_run name (w, log)
              = (r, (w', log ++ cmds)) /\
              ((cmds = [ListOutputs] /\ (r = Exit 1 \/ exists e, r = Raise e)) \/
               exists names w1 d,
                 list_devices subprocess_run (w, log)
                 = (Return names, (w1, log ++ [ListOutputs])) /\
                 d ∈ names /\ (name ∈ names -> d = name) /\
                 cmds = [ListOutputs; SelectOutput d] /\
                 (r = Return tt <->
                  exists stdout,
                    (subprocess_run (SelectOutput d) w1).1 = Completed stdout))).
  { intros names d -> Hd Hname ->. rewrite select_or_exit_run.
    eexists _, _, [ListOutputs; SelectOutput d].
    split; [by rewrite <- app_assoc|]. right.
    exists names, (subprocess_run ListOutputs w).2, d.
    repeat split; try done.
    - destruct (subprocess_run (SelectOutput d) _).1 as [stdout|[| | |]];
        try done. by exists stdout.
    - by intros [stdout ->]. }
  destruct (subprocess_run ListOutputs w).1 as [stdout|e] eqn:Hout.
  - destruct Hcase as (names & -> & Hclean & _).
    pose proof (switch_device_eq subprocess_run name _ _ _ Hl) as Heq.
    destruct (bool_decide (name ∈ names)) eqn:Hin.
    + apply bool_decide_eq_true in Hin. by apply (Hsel names name).
    + apply bool_decide_eq_false in Hin.
      destruct (find_closest_device name names) as [d|] eqn:Hres.
      * apply (Hsel names d); try done.
        by apply find_closest_device_elem in Hres.
      * exists (Exit 1), (subprocess_run ListOutputs w).2, [ListOutputs].
        split; [done|]. left. auto.
  - unfold switch_device, bind. rewrite Hl.
    destruct e; subst r0; eexists _, _, [ListOutputs];
      (split; [reflexivity|]); left; eauto.
Qed.

(** X11: when the name given is not among the names that [list_devices]
    returned, [switch_device] selects what the resolver answers on these
    names, whatever it is, and ends the program with status 1 when the
    resolver answers nothing: the truth test of the source on the answer
    never rejects a device. *)
Theorem switch_device_resolves (W : Type)
    (subprocess_run : argv -> W -> completed * W)
    (name : string) (names : list string) (s s1 : W * list argv) :
  list_devices subprocess_run s = (Return names, s1) -> name ∉ names ->
  switch_device subprocess_run name s
  = match find_closest_device name names with
    | Some d => select_or_exit subprocess_run d s1
    | None => (Exit 1, s1)
    end.
Proof.
  intros Hl Hname. rewrite (switch_device_eq subprocess_run name _ _ _ Hl).
  by rewrite bool_decide_eq_false_2.
Qed.

Lemma switch_device_resolves_witness :
  list_devices Stub.subprocess_run
    (backend ["MacBook Pro Speakers"; "AirPods Pro"] 50 false, [])
  = (Return ["MacBook Pro Speakers"; "AirPods Pro"],
     (backend ["MacBook Pro Speakers"; "AirPods Pro"] 50 false,
      [ListOutputs])) /\
  ("airpod" ∉ ["MacBook Pro Speakers"; "AirPods Pro"]) /\
  switch_device Stub.subprocess_run "airpod"
    (backend ["MacBook Pro Speakers"; "AirPods Pro"] 50 false, [])
  = (Return tt,
     (Stub.with_active
        (backend ["MacBook Pro Speakers"; "AirPods Pro"] 50 false)
        "AirPods Pro",
      [ListOutputs; SelectOutput "AirPods Pro"])).
Proof.
  assert (Hl : list_devices Stub.subprocess_run
      (backend ["MacBook Pro Speakers"; "AirPods Pro"] 50 false, [])
    = (Return ["MacBook Pro Speakers"; "AirPods Pro"],
       (backend ["MacBook Pro Speakers"; "AirPods Pro"] 50 false,
        [ListOutputs]))) by (vm_compute; reflexivity).
  assert (Hname : "airpod" ∉ ["MacBook Pro Speakers"; "AirPods Pro"]).
  { intros Hin.
    repeat (apply elem_of_cons in Hin as [Hin|Hin]; [discriminate Hin|]).
    by apply elem_of_nil in Hin. }
  split; [exact Hl|]. split; [exact Hname|].
  pose proof (switch_device_resolves _ Stub.subprocess_run "airpod"
                _ _ _ Hl Hname) as Hthm.
  rewrite Hthm. vm_compute. reflexivity.
Defined.

Section DialectFacts.
Context {W : Type} (subprocess_run : argv -> W -> completed * W).

Lemma set_volume_try_run cmd (w : W) log :
  set_volume_try subprocess_run cmd (w, log)
  = (match (subprocess_run (Osascript cmd) w).1 with
     | Completed _ => Return true
     | Failed (CalledProcessError _) => Return false
     | Failed e => Raise e
     end, ((subprocess_run (Osascript cmd) w).2, log ++ [Osascript cmd])).
Proof.
  unfold set_volume_try, bind, try_except. rewrite run_eq.
  by destruct (subprocess_run (Osascript cmd) w).1 as [stdout|[| | |]].
Qed.

End DialectFacts.

(** X12: [set_volume] tries its three dialects in the order of the source
    and stops at the first command that does not fail with
    [CalledProcessError]: the commands run are a first part, not empty,
    of the three.  The last command run decides the result: [True] when
    it succeeded; [False] when it failed, and then either it was the
    third dialect or it raised another exception, after which the
    dialects left are not tried. *)
Theorem set_volume_first_success (W : Type)
    (subprocess_run : argv -> W -> completed * W)
    (level : Z) (w : W) (log : list argv) :
  exists r w' cmds,
    set_volume subprocess_run level (w, log)
    = (Return r, (w', log ++ cmds)) /\
    cmds <> [] /\ cmds `prefix_of` set_volume_commands (clamp level) /\
    exists w0 cmd,
      last cmds = Some cmd /\ (subprocess_run cmd w0).2 = w' /\
      match (subprocess_run cmd w0).1 with
      | Completed _ => r = true
      | Failed (CalledProcessError _) =>
          r = false /\ cmds = set_volume_commands (clamp level)
      | Failed _ => r = false
      end.
Proof.
  unfold set_volume, try_except, set_volume_commands, clamp.
  set (l := Z.max 0 (Z.min 100 level)). cbn [set_volume_loop]. unfold bind.
  rewrite set_volume_try_run.
  destruct (subprocess_run (Osascript (SetOutputVolume l)) w).1
    as [out1|e1] eqn:E1.
  { eexists _, _, [_]. split; [done|]. split; [done|].
    split; [by eexists [_; _]|]. exists w. eexists. split; [done|].
    split; [done|]. by rewrite E1. }
  assert (H1 : (exists stderr, e1 = CalledProcessError stderr) \/
               forall stderr, e1 <> CalledProcessError stderr)
    by (destruct e1; eauto).
  destruct H1 as [[stderr ->]|H1]; cycle 1.
  { exists false. eexists _, [_].
    split; [destruct e1; [by destruct (H1 stderr)|done..]|]. split; [done|].
    split; [by eexists [_; _]|]. exists w. eexists. split; [done|].
    split; [done|]. rewrite E1. destruct e1; try done. by destruct (H1 stderr). }
  rewrite set_volume_try_run.
  set (w1 := (subprocess_run (Osascript (SetOutputVolume l)) w).2).
  destruct (subprocess_run (Osascript (SetOutputVolumeSE l)) w1).1
    as [out2|e2] eqn:E2.
  { eexists _, _, [_; _]. split; [by rewrite <- app_assoc|]. split; [done|].
    split; [by eexists [_]|]. exists w1. eexists. split; [done|].
    split; [done|]. by rewrite E2. }
  assert (H2 : (exists stderr, e2 = CalledProcessError stderr) \/
               forall stderr, e2 <> CalledProcessError stderr)
    by (destruct e2; eauto).
  destruct H2 as [[stderr2 ->]|H2]; cycle 1.
  { exists false. eexists _, [_; _].
    split; [rewrite <- app_assoc;
            destruct e2; [by destruct (H2 stderr0)|done..]|].
    split; [done|].
    split; [by eexists [_]|]. exists w1. eexists. split; [done|].
    split; [done|]. rewrite E2. destruct e2; try done.
    by destruct (H2 stderr0). }
  rewrite set_volume_try_run.
  set (w2 := (subprocess_run (Osascript (SetOutputVolumeSE l)) w1).2).
  destruct (subprocess_run (Osascript (SetVolume l)) w2).1
    as [out3|e3] eqn:E3.
  { eexists _, _, [_; _; _]. split; [by rewrite <- !app_assoc|].
    split; [done|]. split; [by eexists []|]. exists w2. eexists.
    split; [done|]. split; [done|]. by rewrite E3. }
  exists false. eexists _, [_; _; _].
  split; [rewrite <- !app_assoc; by destruct e3|]. split; [done|].
  split; [by eexists []|]. exists w2. eexists. split; [done|].
  split; [done|]. rewrite E3. by destruct e3.
Qed.

(** ** The entry points *)

Lemma is_query_volume cmd : is_volume_query cmd -> is_query cmd.
Proof. unfold is_query. tauto. Qed.

Lemma is_query_mute cmd : is_mute_query cmd -> is_query cmd.
Proof. unfold is_query. tauto. Qed.

Section EntryFacts.
Context {W : Type} (subprocess_run : argv -> W -> completed * W).
Context (ask_select : list string -> option string) (ask_text : option string).

Lemma never_returns_exit {A} code : never_returns (W:=W) (A:=A) (sys_exit code).
Proof. by intros s s' x. Qed.

Lemma never_returns_bind {A B} (m : M A) (k : A -> M B) :
  (forall x, never_returns (k x)) -> never_returns (W:=W) (bind m k).
Proof.
  intros Hk s s' y. unfold bind. destruct (m s) as [[x|e|code] s1]; [|done..].
  apply Hk.
Qed.

Lemma mute_probe_behaves Q :
  behaves (eq (Osascript OutputMuted)) Q (mute_probe subprocess_run).
Proof.
  apply behaves_try.
  - apply behaves_bind; [by apply behaves_run|]. intros stdout.
    apply behaves_ret.
  - intros e h [= <-]. apply behaves_ret.
Qed.

(** What [interactive_mode] runs before it asks. *)
Lemma interactive_mode_eq :
  interactive_mode subprocess_run ask_select ask_text
  = bind (list_devices subprocess_run) (fun devices =>
      match devices with
      | [] => sys_exit 1
      | _ :: _ =>
          bind (get_current_device subprocess_run) (fun current_device =>
            bind (mute_probe subprocess_run) (fun test_mute =>
              bind (get_volume subprocess_run) (fun test_volume =>
                match ask_select
                        (menu devices current_device test_mute test_volume)
                with
                | None => sys_exit 1
                | Some choice => chosen subprocess_run ask_text choice
                end)))
      end).
Proof. reflexivity. Qed.

Lemma interactive_mode_asks (P : argv -> Prop) (Q : Z -> Prop)
    (k : list string -> option string -> option string -> option Z -> M unit) :
  (forall cmd, is_query cmd -> P cmd) -> Q 1%Z ->
  (forall devices current_device test_mute test_volume,
     behaves P Q (k devices current_device test_mute test_volume)) ->
  behaves P Q
    (bind (list_devices subprocess_run) (fun devices =>
       match devices with
       | [] => sys_exit 1
       | _ :: _ =>
           bind (get_current_device subprocess_run) (fun current_device =>
             bind (mute_probe subprocess_run) (fun test_mute =>
               bind (get_volume subprocess_run) (fun test_volume =>
                 k devices current_device test_mute test_volume)))
       end)).
Proof.
  intros HP HQ Hk. apply behaves_bind.
  { eapply behaves_weaken; [| |apply list_devices_behaves].
    - intros cmd <-. apply HP. by left.
    - by intros code <-. }
  intros [|d devices]; [by apply behaves_exit|].
  apply behaves_bind.
  { eapply behaves_weaken; [| |apply (get_current_device_behaves _ Q)];
      [|done]. intros cmd <-. apply HP. right. by left. }
  intros current_device. apply behaves_bind.
  { eapply behaves_weaken; [| |apply (mute_probe_behaves Q)]; [|done].
    intros cmd <-. apply HP, is_query_mute. by left. }
  intros test_mute. apply behaves_bind.
  { apply returns_after_behaves.
    eapply returns_after_weaken; [|apply get_volume_returns].
    intros cmd Hcmd. by apply HP, is_query_volume. }
  intros test_volume. apply Hk.
Qed.





End EntryFacts.

(** X13: when the user aborts the menu, [interactive_mode] has run
    nothing but queries (the two listings and the volume and mute
    queries): no device was selected and neither the volume nor the mute
    flag was set.  It then ends the program with status 1, unless a
    query raised an exception it does not catch. *)
Theorem interactive_abort_reads_only (W : Type)
    (subprocess_run : argv -> W -> completed * W)
    (ask_select : list string -> option string) (ask_text : option string)
    (w : W) (log : list argv) :
  (forall choices, ask_select choices = None) ->
  exists r w' cmds,
    interactive_mode subprocess_run ask_select ask_text (w, log)
    = (r, (w', log ++ cmds)) /\
    Forall is_query cmds /\ (r = Exit 1 \/ exists e, r = Raise e).
Proof.
  intros Hask. rewrite interactive_mode_eq.
  assert (Hnever : never_returns (W:=W)
            (bind (list_devices subprocess_run) (fun devices =>
               match devices with
               | [] => sys_exit 1
               | _ :: _ =>
                   bind (get_current_device subprocess_run)
                     (fun current_device =>
                        bind (mute_probe subprocess_run) (fun test_mute =>
                          bind (get_volume subprocess_run) (fun test_volume =>
                            match ask_select
                                    (menu devices current_device test_mute
                                       test_volume)
                            with
                            | None => sys_exit 1
                            | Some choice =>
                                chosen subprocess_run ask_text choice
                            end)))
               end))).
  { apply never_returns_bind. intros [|d devices];
      [apply never_returns_exit|].
    do 3 (apply never_returns_bind; intros ?).
    rewrite Hask. apply never_returns_exit. }
  destruct (interactive_mode_asks subprocess_run is_query (eq 1%Z)
              (fun devices current_device test_mute test_volume =>
                 match ask_select
                         (menu devices current_device test_mute test_volume)
                 with
                 | None => sys_exit 1
                 | Some choice => chosen subprocess_run ask_text choice
                 end)) with (w := w) (log := log)
    as (r & w' & cmds & Heq & Hcmds & Hexit); [done..| |].
  { intros devices current_device test_mute test_volume.
    rewrite Hask. by apply behaves_exit. }
  exists r, w', cmds. split; [done|]. split; [done|].
  destruct r as [[]|e|code].
  - by destruct (Hnever _ _ _ Heq).
  - eauto.
  - left. by rewrite <- (Hexit code).
Qed.

Lemma interactive_abort_reads_only_witness :
  exists r w' cmds,
    interactive_mode Stub.subprocess_run (fun _ => None) None
      (backend ["MacBook Pro Speakers"; "AirPods Pro"] 50 false, [])
    = (r, (w', [] ++ cmds)) /\
    Forall is_query cmds /\ (r = Exit 1 \/ exists e, r = Raise e).
Proof.
  exact (interactive_abort_reads_only _ Stub.subprocess_run (fun _ => None)
           None (backend ["MacBook Pro Speakers"; "AirPods Pro"] 50 false) []
           (fun _ => eq_refl)).
Defined.

(** X14: when the listing gives no device, because the tool is missing or
    fails or prints no name, [switch_device] and [interactive_mode] end
    the program with status 1 right after the listing: nothing is
    selected and the user is not asked. *)
Theorem nothing_listed_exit_1 (W : Type)
    (subprocess_run : argv -> W -> completed * W)
    (ask_select : list string -> option string) (ask_text : option string)
    (name : string) (s : W * list argv) :
  (list_devices subprocess_run s).1 = Exit 1 \/
  (list_devices subprocess_run s).1 = Return [] ->
  switch_device subprocess_run name s
  = (Exit 1, (list_devices subprocess_run s).2) /\
  interactive_mode subprocess_run ask_select ask_text s
  = (Exit 1, (list_devices subprocess_run s).2).
Proof.
  rewrite interactive_mode_eq. unfold switch_device, bind.
  destruct (list_devices subprocess_run s) as [r s1]. cbn [fst snd].
  by intros [->| ->].
Qed.

Lemma nothing_listed_exit_1_witness :
  (list_devices (fun (_ : argv) (w : unit) => (Failed FileNotFoundError, w))
     (tt, [])).1 = Exit 1 /\
  switch_device (fun (_ : argv) (w : unit) => (Failed FileNotFoundError, w))
    "AirPods" (tt, [])
  = (Exit 1, (tt, [ListOutputs])) /\
  interactive_mode (fun (_ : argv) (w : unit) => (Failed FileNotFoundError, w))
    (fun _ => Some "AirPods") None (tt, [])
  = (Exit 1, (tt, [ListOutputs])).
Proof.
  split; [reflexivity|].
  exact (nothing_listed_exit_1 unit
           (fun _ w => (Failed FileNotFoundError, w))
           (fun _ => Some "AirPods") None "AirPods" (tt, [])
           (or_introl eq_refl)).
Defined.



(** X16: without an audio option, [-c] and the plain listing (no device
    and no [-i]) first ask for the current device, and there a missing
    tool is not caught: [main] raises [FileNotFoundError] after that one
    command, where [list_devices] would have ended the program with
    status 1. *)
Theorem listing_without_tool_raises (W : Type)
    (subprocess_run : argv -> W -> completed * W)
    (ask_select : list string -> option string) (ask_text : option string)
    (args : Args) (w : W) (log : list argv) :
  controls_audio args = false ->
  arg_current args = true \/
  (arg_interactive args = false /\ arg_device args = None) ->
  (subprocess_run CurrentOutput w).1 = Failed FileNotFoundError ->
  main subprocess_run ask_select ask_text args (w, log)
  = (Raise FileNotFoundError,
     ((subprocess_run CurrentOutput w).2, log ++ [CurrentOutput])).
Proof.
  intros Haudio Hargs Hout. unfold main.
  unfold controls_audio, given in Haudio.
  destruct (arg_get_volume args); [done|].
  destruct (arg_volume args); [done|].
  destruct (arg_volume_up args); [done|].
  destruct (arg_volume_down args); [done|].
  destruct (arg_toggle_mute args); [done|].
  assert (Hcur : forall k : option string -> M unit,
            bind (get_current_device subprocess_run) k (w, log)
            = (Raise FileNotFoundError,
               ((subprocess_run CurrentOutput w).2, log ++ [CurrentOutput]))).
  { intros k. unfold bind. by rewrite get_current_device_run, Hout. }
  destruct (arg_current args); [apply Hcur|].
  destruct Hargs as [?|[-> ->]]; [done|]. apply Hcur.
Qed.

Lemma listing_without_tool_raises_witness :
  controls_audio (mkArgs false false false false None None None None) = false /\
  main (fun (_ : argv) (w : unit) => (Failed FileNotFoundError, w))
    (fun _ => None) None
    (mkArgs false false false false None None None None) (tt, [])
  = (Raise FileNotFoundError, (tt, [CurrentOutput])).
Proof.
  split; [reflexivity|].
  exact (listing_without_tool_raises unit
           (fun _ w => (Failed FileNotFoundError, w)) (fun _ => None) None
           (mkArgs false false false false None None None None) tt []
           eq_refl (or_intror (conj eq_refl eq_refl)) eq_refl).
Defined.

Section MainFacts.
Context {W : Type} (subprocess_run : argv -> W -> completed * W).
Context (ask_select : list string -> option string) (ask_text : option string).



End MainFacts.


(** ** Reading the volume *)

Section VolumeReading.
Context {W : Type} (subprocess_run : argv -> W -> completed * W).



End VolumeReading.


(** ** The entries of the menu *)

Section MenuFacts.
Context {W : Type} (subprocess_run : argv -> W -> completed * W).
Context (ask_select : list string -> option string) (ask_text : option string).

(** The marker does not overlap itself: it starts any text it starts
    when put after it. *)
Lemma prefix_marker_append x :
  x <> "" ->
  String.prefix " (active)" (x ++ " (active)") = true ->
  String.prefix " (active)" x = true.
Proof.
  intros Hx Hp.
  destruct x as [|c0 [|c1 [|c2 [|c3 [|c4 [|c5 [|c6 [|c7 [|c8 x]]]]]]]]];
    [done|..];
    cbv [String.prefix String.append] in Hp;
    repeat match type of Hp with
           | context [ascii_dec ?a ?b] =>
               destruct (ascii_dec a b) as [e|?];
               [try discriminate e; try subst|discriminate Hp]
           end.
  by destruct x.
Qed.

(** [(d + " (active)").replace(" (active)", "")] is [d] when [d] does not
    hold the marker. *)
Lemma remove_marker d :
  Py.contains d " (active)" = false ->
  Py.remove " (active)" (d ++ " (active)") = d.
Proof.
  unfold Py.remove. induction d as [|c d IH]; [by vm_compute|].
  cbn [Py.contains]. intros [Hp Hc]%orb_false_elim.
  rewrite append_String. cbn [Py.remove_from].
  destruct (String.prefix " (active)" (String c (d ++ " (active)"))) eqn:E.
  - rewrite <- append_String in E.
    apply prefix_marker_append in E; [congruence|done].
  - by rewrite (IH Hc).
Qed.

Lemma contains_append d m : Py.contains (d ++ m) m = true.
Proof.
  induction d as [|c d IH]; [apply contains_refl|].
  rewrite append_String. cbn [Py.contains]. rewrite IH. apply orb_true_r.
Qed.

Lemma marked_not_label d label :
  label ∈ menu_labels -> String.eqb (d ++ " (active)") label = false.
Proof.
  intros Hl. apply String.eqb_neq. intros Heq.
  pose proof (contains_append d " (active)") as Hc. rewrite Heq in Hc.
  unfold menu_labels in Hl.
  repeat (apply elem_of_cons in Hl as [->|Hl]; [by vm_compute in Hc|]).
  by apply elem_of_nil in Hl.
Qed.

Lemma chosen_entry current_device d :
  d ∉ menu_labels -> Py.contains d " (active)" = false ->
  chosen subprocess_run ask_text (menu_entry current_device d)
  = switch_device subprocess_run d.
Proof.
  intros Hd Hm. unfold chosen, menu_entry.
  destruct (bool_decide (Some d = current_device)).
  - rewrite !marked_not_label, contains_append, remove_marker; try done;
      unfold menu_labels; set_solver.
  - assert (Hne : forall label, label ∈ menu_labels ->
                                String.eqb d label = false).
    { intros label Hl. apply String.eqb_neq. by intros ->. }
    rewrite !Hne, Hm; try done; unfold menu_labels; set_solver.
Qed.

(** [interactive_mode] ends before it asks, having run only queries, or
    goes on with the answer after queries only. *)
Lemma interactive_mode_reaches (w : W) log :
  (exists r w' cmds,
     interactive_mode subprocess_run ask_select ask_text (w, log)
     = (r, (w', log ++ cmds)) /\
     Forall is_query cmds /\ (r = Exit 1 \/ exists e, r = Raise e)) \/
  (exists devices current_device test_mute test_volume w1 queries,
     Forall is_query queries /\
     interactive_mode subprocess_run ask_select ask_text (w, log)
     = match ask_select (menu devices current_device test_mute test_volume)
       with
       | None => sys_exit 1
       | Some choice => chosen subprocess_run ask_text choice
       end (w1, log ++ queries)).
Proof.
  rewrite interactive_mode_eq.
  destruct (list_devices_behaves subprocess_run w log)
    as (r0 & w0 & cmds0 & H0 & Hc0 & Hexit0).
  assert (Hq0 : Forall is_query cmds0).
  { eapply Forall_impl; [exact Hc0|]. intros cmd <-. by left. }
  destruct r0 as [[|d devices]|e|code].
  { left. exists (Exit 1), w0, cmds0. unfold bind. rewrite H0. auto. }
  2: { left. exists (Raise e), w0, cmds0. unfold bind. rewrite H0. eauto. }
  2: { left. exists (Exit 1), w0, cmds0. unfold bind.
       rewrite H0, (Hexit0 code eq_refl). auto. }
  destruct (get_current_device_behaves subprocess_run (fun _ => False)
              w0 (log ++ cmds0))
    as (r1 & w1 & cmds1 & H1 & Hc1 & Hexit1).
  assert (Hq1 : Forall is_query (cmds0 ++ cmds1)).
  { apply Forall_app. split; [done|].
    eapply Forall_impl; [exact Hc1|]. intros cmd <-. right. by left. }
  destruct r1 as [current_device|e|code]; [| |by destruct (Hexit1 code)].
  2: { left. exists (Raise e), w1, (cmds0 ++ cmds1). unfold bind.
       rewrite H0. cbv beta iota. rewrite H1, app_assoc. eauto. }
  destruct (mute_probe_behaves subprocess_run (fun _ => False)
              w1 ((log ++ cmds0) ++ cmds1))
    as (r2 & w2 & cmds2 & H2 & Hc2 & Hexit2).
  assert (Hq2 : Forall is_query ((cmds0 ++ cmds1) ++ cmds2)).
  { apply Forall_app. split; [done|].
    eapply Forall_impl; [exact Hc2|]. intros cmd <-.
    apply is_query_mute. by left. }
  destruct r2 as [test_mute|e|code]; [| |by destruct (Hexit2 code)].
  2: { left. exists (Raise e), w2, ((cmds0 ++ cmds1) ++ cmds2). unfold bind.
       rewrite H0. cbv beta iota. rewrite H1. cbv beta iota.
       rewrite H2, !app_assoc. eauto. }
  destruct (get_volume_returns subprocess_run w2
              (((log ++ cmds0) ++ cmds1) ++ cmds2))
    as (test_volume & w3 & cmds3 & H3 & Hc3).
  right.
  exists (d :: devices), current_device, test_mute, test_volume, w3,
    (((cmds0 ++ cmds1) ++ cmds2) ++ cmds3).
  split.
  - apply Forall_app. split; [done|].
    eapply Forall_impl; [exact Hc3|]. apply is_query_volume.
  - unfold bind. rewrite H0. cbv beta iota. rewrite H1. cbv beta iota.
    rewrite H2. cbv beta iota. rewrite H3. by rewrite !app_assoc.
Qed.

End MenuFacts.

(** X19: when the user picks the entry of a device [d], with or without
    the mark of the active device, [interactive_mode] does, after its
    queries, what [switch_device d] does, provided the name [d] does not
    hold the text " (active)" and is not one of the five entries for
    volume and mute.  (Or it ended before asking, with status 1 or an
    exception, after queries only.) *)
Theorem interactive_pick_switches (W : Type)
    (subprocess_run : argv -> W -> completed * W)
    (ask_select : list string -> option string) (ask_text : option string)
    (current_device : option string) (d : string) (w : W) (log : list argv) :
  (forall choices, ask_select choices = Some (menu_entry current_device d)) ->
  d ∉ menu_labels -> Py.contains d " (active)" = false ->
  (exists r w' cmds,
     interactive_mode subprocess_run ask_select ask_text (w, log)
     = (r, (w', log ++ cmds)) /\
     Forall is_query cmds /\ (r = Exit 1 \/ exists e, r = Raise e)) \/
  (exists w1 queries,
     Forall is_query queries /\
     interactive_mode subprocess_run ask_select ask_text (w, log)
     = switch_device subprocess_run d (w1, log ++ queries)).
Proof.
  intros Hask Hd Hm.
  destruct (interactive_mode_reaches subprocess_run ask_select ask_text w log)
    as [Hend|(devices & cur & test_mute & test_volume & w1 & queries
              & Hq & Heq)]; [by left|].
  right. exists w1, queries. split; [done|].
  by rewrite Heq, Hask, chosen_entry.
Qed.

Lemma interactive_pick_switches_witness :
  interactive_mode Stub.subprocess_run
    (fun _ => Some (menu_entry (Some "AirPods Pro") "AirPods Pro")) None
    (Stub.mkBackend ["MacBook Pro Speakers"; "AirPods Pro"]
       (Some "AirPods Pro") 50 false (fun _ => true), [])
  = (Return tt,
     (Stub.mkBackend ["MacBook Pro Speakers"; "AirPods Pro"]
        (Some "AirPods Pro") 50 false (fun _ => true),
      [ListOutputs; CurrentOutput; Osascript OutputMuted;
       Osascript OutputVolume; ListOutputs; SelectOutput "AirPods Pro"])) /\
  ((exists r w' cmds,
      interactive_mode Stub.subprocess_run
        (fun _ => Some (menu_entry (Some "AirPods Pro") "AirPods Pro")) None
        (Stub.mkBackend ["MacBook Pro Speakers"; "AirPods Pro"]
           (Some "AirPods Pro") 50 false (fun _ => true), [])
      = (r, (w', [] ++ cmds)) /\
      Forall is_query cmds /\ (r = Exit 1 \/ exists e, r = Raise e)) \/
   (exists w1 queries,
      Forall is_query queries /\
      interactive_mode Stub.subprocess_run
        (fun _ => Some (menu_entry (Some "AirPods Pro") "AirPods Pro")) None
        (Stub.mkBackend ["MacBook Pro Speakers"; "AirPods Pro"]
           (Some "AirPods Pro") 50 false (fun _ => true), [])
      = switch_device Stub.subprocess_run "AirPods Pro"
          (w1, [] ++ queries))).
Proof.
  split; [by vm_compute|].
  apply (interactive_pick_switches _ Stub.subprocess_run
           (fun _ => Some (menu_entry (Some "AirPods Pro") "AirPods Pro"))
           None (Some "AirPods Pro") "AirPods Pro").
  - reflexivity.
  - unfold menu_labels. intros Hin.
    repeat (apply elem_of_cons in Hin as [Hin|Hin]; [discriminate Hin|]).
    by apply elem_of_nil in Hin.
  - reflexivity.
Defined.

(** ** The devices that do not contain the query *)

Section Irrelevant.





End Irrelevant.


